(** * ctapipe.visualization.mpl : the MatPlotLib camera display

    A shallow embedding of [CameraDisplay] (src/ctapipe/visualization/mpl.py).

    The class is a thin adapter over a plotting library, so the embedding
    has two layers:

    - the objects of the plotting library that the class touches (axes,
      the regular-polygon collection, ellipse patches) live on a heap of
      mutable objects addressed by location, because the code shares them:
      the pixel collection is referenced both by [self.pixels] and by the
      axes it was added to, and an ellipse both by the axes and by the
      caller it is returned to;
    - the methods of the class are programs in a state-and-exception monad
      over that heap.  A raised exception keeps the heap as it is at the
      point of the [raise], as in Python.

    Numbers are IEEE-754 binary64 ([float]), the type of NumPy's float64
    and of Python's [float]. *)

From Stdlib Require Import Floats.
From stdpp Require Import base option list gmap strings.

(** ** NumPy: arrays and the scalar functions used by the class *)

(** An n-dimensional array: its shape tuple and its elements in row-major
    order. *)
Record ndarray := mk_ndarray {
  shape : list nat;
  elems : list float
}.

(** [a.size]: the number of elements a shape describes. *)
Definition ndarray_size (a : ndarray) : nat := foldr Nat.mul 1 (shape a).

(** [len(a)]: the extent of the first axis; a 0-d array has no length. *)
Definition ndarray_len (a : ndarray) : option nat := head (shape a).

(** [np.array(l)] for a flat list. *)
Definition array1 (l : list float) : ndarray :=
  {| shape := [length l]; elems := l |}.

(** [a.reshape(s)], where [s] describes as many elements as [a] has. *)
Definition reshape (s : list nat) (a : ndarray) : option ndarray :=
  if decide (foldr Nat.mul 1 s = ndarray_size a)
  then Some {| shape := s; elems := elems a |}
  else None.

(** [np.pi], the binary64 number nearest to pi. *)
Definition np_pi : float := 0x1.921fb54442d18p+1%float.

(** [np.degrees(x)] is [x * (180 / pi)] and [np.radians(x)] is
    [x * (pi / 180)] in double precision. *)
Definition np_degrees (x : float) : float := (x * (180 / np_pi))%float.
Definition np_radians (x : float) : float := (x * (np_pi / 180))%float.

(** ** The camera geometry (external to the class)

    [pix_x] and [pix_y] are quantities (a value array with a unit), [pix_r]
    is a table column whose [data] is the bare array.  A camera geometry
    tabulates its pixels in flat columns, so these arrays are
    one-dimensional. *)
Record Quantity := mk_Quantity {
  qvalue : list float;
  qunit : string
}.

Record Column := mk_Column {
  coldata : list float
}.

Record CameraGeometry := mk_CameraGeometry {
  pix_x : Quantity;
  pix_y : Quantity;
  pix_r : Column;
  pix_type : string
}.

(** [q.shape] of a one-dimensional quantity. *)
Definition Quantity_shape (q : Quantity) : list nat := [length (qvalue q)].

(** [np.zeros_like(q)]: zeros in the shape of [q]. *)
Definition np_zeros_like (q : Quantity) : ndarray :=
  {| shape := Quantity_shape q; elems := replicate (length (qvalue q)) 0%float |}.

(** The number of pixels of a geometry, and the geometries whose three
    per-pixel columns agree on it. *)
Definition n_pixels (g : CameraGeometry) : nat := length (qvalue (pix_x g)).

Definition geometry_wf (g : CameraGeometry) : Prop :=
  length (qvalue (pix_y g)) = n_pixels g ∧ length (coldata (pix_r g)) = n_pixels g.

(** ** The plotting library's objects *)

Definition loc := positive.

Definition colormap := string.
Definition plt_cm_jet : colormap := "jet".

(** Coordinate transforms, kept symbolic. *)
Inductive transform :=
| IdentityTransform
| transData (ax : loc)
| dpi_scale_trans (fig : nat)
| Affine2D_scale (s : float)
| trans_add (a b : transform).

(** Values of keyword arguments handed through to the library. *)
Inductive pyval :=
| PyNone
| PyBool (b : bool)
| PyFloat (f : float)
| PyStr (s : string).

Definition kwargs := list (string * pyval).

(** [matplotlib.collections.RegularPolyCollection].  The colour map, line
    width and value array have library defaults until they are set; the
    defaults are [None] here. *)
Record RegularPolyCollection := mk_RegularPolyCollection {
  numsides : nat;
  rotation : float;
  offsets : list (float * float);
  sizes : list float;
  transOffset : transform;
  coll_cmap : option colormap;
  coll_linewidth : option float;
  coll_array : option ndarray;
  coll_transform : transform
}.

(** [matplotlib.patches.Ellipse]. *)
Record Ellipse := mk_Ellipse {
  ell_xy : float * float;
  ell_width : float;
  ell_height : float;
  ell_angle : float;
  ell_fill : bool;
  ell_style : kwargs
}.

(** The part of a [matplotlib] axes the class reads or writes. *)
Record Axes := mk_Axes {
  ax_figure : nat;
  ax_aspect : option (string * string);
  ax_collections : list loc;
  ax_patches : list loc;
  ax_title : string;
  ax_xlabel : string;
  ax_ylabel : string;
  ax_autoscaled : bool
}.

Inductive obj :=
| OAxes (a : Axes)
| OColl (c : RegularPolyCollection)
| OPatch (e : Ellipse).

(** The world: the heap of library objects, the axes [plt.gca()] answers
    with (pyplot makes one on demand; the world is taken after that), and
    the number of redraws requested through [plt.draw()]. *)
Record World := mk_World {
  heap : gmap loc obj;
  gca : loc;
  draws : nat
}.

Definition with_heap (h : gmap loc obj) (w : World) : World :=
  {| heap := h; gca := gca w; draws := draws w |}.

(** ** Exceptions and the monad *)

Inductive ValueError_info :=
| UnimplementedPixelType (tag : string)
| ImageShapeMismatch (image_shape geometry_shape : list nat).

Inductive exn :=
| ValueError (i : ValueError_info)
| TypeError_multiple_values (keyword : string)
| AttributeError (attribute : string).

Inductive result (A : Type) :=
| Ok (a : A)
| Raise (e : exn).
Arguments Ok {A} a.
Arguments Raise {A} e.

Definition M (A : Type) : Type := World → result A * World.

Global Instance M_ret : MRet M := λ A a w, (Ok a, w).

Global Instance M_bind : MBind M := λ A B f m w,
  match m w with
  | (Ok a, w') => f a w'
  | (Raise e, w') => (Raise e, w')
  end.

Definition raise {A : Type} (e : exn) : M A := λ w, (Raise e, w).

(** ** Primitive operations on the heap *)

(** A new object, at a location the heap does not use yet. *)
Definition alloc (o : obj) : M loc := λ w,
  let l := fresh (dom (heap w)) in
  (Ok l, with_heap (<[l := o]> (heap w)) w).

Definition store (l : loc) (o : obj) : M () := λ w,
  (Ok (), with_heap (<[l := o]> (heap w)) w).

(** Reading an object through a reference; calling a method of one class
    on an object of another is Python's [AttributeError]. *)
Definition get_axes (method : string) (l : loc) : M Axes := λ w,
  match heap w !! l with
  | Some (OAxes a) => (Ok a, w)
  | _ => (Raise (AttributeError method), w)
  end.

Definition get_coll (method : string) (l : loc) : M RegularPolyCollection := λ w,
  match heap w !! l with
  | Some (OColl c) => (Ok c, w)
  | _ => (Raise (AttributeError method), w)
  end.

(** ** pyplot *)

Definition plt_gca : M loc := λ w, (Ok (gca w), w).

Definition plt_draw : M () := λ w,
  (Ok (), {| heap := heap w; gca := gca w; draws := S (draws w) |}).

(** ** Methods of the axes *)

Definition with_aspect (aspect adjustable : string) (a : Axes) : Axes :=
  {| ax_figure := ax_figure a; ax_aspect := Some (aspect, adjustable);
     ax_collections := ax_collections a; ax_patches := ax_patches a;
     ax_title := ax_title a; ax_xlabel := ax_xlabel a;
     ax_ylabel := ax_ylabel a; ax_autoscaled := ax_autoscaled a |}.

Definition with_collection (c : loc) (a : Axes) : Axes :=
  {| ax_figure := ax_figure a; ax_aspect := ax_aspect a;
     ax_collections := ax_collections a ++ [c]; ax_patches := ax_patches a;
     ax_title := ax_title a; ax_xlabel := ax_xlabel a;
     ax_ylabel := ax_ylabel a; ax_autoscaled := ax_autoscaled a |}.

Definition with_patch (p : loc) (a : Axes) : Axes :=
  {| ax_figure := ax_figure a; ax_aspect := ax_aspect a;
     ax_collections := ax_collections a; ax_patches := ax_patches a ++ [p];
     ax_title := ax_title a; ax_xlabel := ax_xlabel a;
     ax_ylabel := ax_ylabel a; ax_autoscaled := ax_autoscaled a |}.

Definition with_title (s : string) (a : Axes) : Axes :=
  {| ax_figure := ax_figure a; ax_aspect := ax_aspect a;
     ax_collections := ax_collections a; ax_patches := ax_patches a;
     ax_title := s; ax_xlabel := ax_xlabel a;
     ax_ylabel := ax_ylabel a; ax_autoscaled := ax_autoscaled a |}.

Definition with_xlabel (s : string) (a : Axes) : Axes :=
  {| ax_figure := ax_figure a; ax_aspect := ax_aspect a;
     ax_collections := ax_collections a; ax_patches := ax_patches a;
     ax_title := ax_title a; ax_xlabel := s;
     ax_ylabel := ax_ylabel a; ax_autoscaled := ax_autoscaled a |}.

Definition with_ylabel (s : string) (a : Axes) : Axes :=
  {| ax_figure := ax_figure a; ax_aspect := ax_aspect a;
     ax_collections := ax_collections a; ax_patches := ax_patches a;
     ax_title := ax_title a; ax_xlabel := ax_xlabel a;
     ax_ylabel := s; ax_autoscaled := ax_autoscaled a |}.

Definition with_autoscaled (a : Axes) : Axes :=
  {| ax_figure := ax_figure a; ax_aspect := ax_aspect a;
     ax_collections := ax_collections a; ax_patches := ax_patches a;
     ax_title := ax_title a; ax_xlabel := ax_xlabel a;
     ax_ylabel := ax_ylabel a; ax_autoscaled := true |}.

(** A method that updates the axes in place. *)
Definition update_axes (method : string) (ax : loc) (f : Axes → Axes) : M () :=
  a ← get_axes method ax; store ax (OAxes (f a)).

(** [ax.transData], the data transform of the axes [ax]. *)
Definition Axes_transData (ax : loc) : M transform :=
  _ ← get_axes "transData" ax; mret (transData ax).

Definition Axes_get_figure (ax : loc) : M nat :=
  a ← get_axes "get_figure" ax; mret (ax_figure a).

Definition Axes_set_aspect (ax : loc) (aspect adjustable : string) : M () :=
  update_axes "set_aspect" ax (with_aspect aspect adjustable).

(** With [autolim] the library also refreshes its data limits, which are
    not part of [Axes] here. *)
Definition Axes_add_collection (ax : loc) (c : loc) (autolim : bool) : M () :=
  update_axes "add_collection" ax (with_collection c).

Definition Axes_add_patch (ax : loc) (p : loc) : M () :=
  update_axes "add_patch" ax (with_patch p).

Definition Axes_set_title (ax : loc) (s : string) : M () :=
  update_axes "set_title" ax (with_title s).

Definition Axes_set_xlabel (ax : loc) (s : string) : M () :=
  update_axes "set_xlabel" ax (with_xlabel s).

Definition Axes_set_ylabel (ax : loc) (s : string) : M () :=
  update_axes "set_ylabel" ax (with_ylabel s).

Definition Axes_autoscale_view (ax : loc) : M () :=
  update_axes "autoscale_view" ax with_autoscaled.

(** ** Methods of the collection *)

Definition new_RegularPolyCollection (n : nat) (rot : float)
    (offs : list (float * float)) (szs : list float) (toff : transform) : M loc :=
  alloc (OColl {| numsides := n; rotation := rot; offsets := offs;
                  sizes := szs; transOffset := toff;
                  coll_cmap := None; coll_linewidth := None;
                  coll_array := None; coll_transform := IdentityTransform |}).

Definition with_cmap (cm : colormap) (c : RegularPolyCollection) : RegularPolyCollection :=
  {| numsides := numsides c; rotation := rotation c; offsets := offsets c;
     sizes := sizes c; transOffset := transOffset c;
     coll_cmap := Some cm; coll_linewidth := coll_linewidth c;
     coll_array := coll_array c; coll_transform := coll_transform c |}.

Definition with_linewidth (lw : float) (c : RegularPolyCollection) : RegularPolyCollection :=
  {| numsides := numsides c; rotation := rotation c; offsets := offsets c;
     sizes := sizes c; transOffset := transOffset c;
     coll_cmap := coll_cmap c; coll_linewidth := Some lw;
     coll_array := coll_array c; coll_transform := coll_transform c |}.

Definition with_array (a : ndarray) (c : RegularPolyCollection) : RegularPolyCollection :=
  {| numsides := numsides c; rotation := rotation c; offsets := offsets c;
     sizes := sizes c; transOffset := transOffset c;
     coll_cmap := coll_cmap c; coll_linewidth := coll_linewidth c;
     coll_array := Some a; coll_transform := coll_transform c |}.

Definition with_transform (t : transform) (c : RegularPolyCollection) : RegularPolyCollection :=
  {| numsides := numsides c; rotation := rotation c; offsets := offsets c;
     sizes := sizes c; transOffset := transOffset c;
     coll_cmap := coll_cmap c; coll_linewidth := coll_linewidth c;
     coll_array := coll_array c; coll_transform := t |}.

(** A method that updates the collection in place. *)
Definition update_coll (method : string) (p : loc)
    (f : RegularPolyCollection → RegularPolyCollection) : M () :=
  c ← get_coll method p; store p (OColl (f c)).

Definition Coll_set_cmap (p : loc) (cm : colormap) : M () :=
  update_coll "set_cmap" p (with_cmap cm).

Definition Coll_set_linewidth (p : loc) (lw : float) : M () :=
  update_coll "set_linewidth" p (with_linewidth lw).

Definition Coll_set_array (p : loc) (a : ndarray) : M () :=
  update_coll "set_array" p (with_array a).

Definition Coll_set_transform (p : loc) (t : transform) : M () :=
  update_coll "set_transform" p (with_transform t).

(** ** The class and the ellipse it draws *)

Section CameraDisplay.

(** What the library's patch constructor makes of the generic style
    arguments it is handed: [None] when it takes them, the exception it
    raises otherwise.  The class passes the caller's [**kwargs] through
    unexamined, so this is a parameter of the development. *)
Variable Patch_update : kwargs → option exn.

(** The keywords the call in [add_moment_ellipse] spells out. *)
Definition Ellipse_explicit_keywords : list string :=
  ["xy"; "width"; "height"; "angle"; "fill"].

(** [Ellipse(xy=.., width=.., height=.., angle=.., fill=.., **kw)]: a
    keyword given both explicitly and in [kw] is a [TypeError] of the call
    itself; then the library has its say on [kw]. *)
Definition new_Ellipse (xy : float * float) (width height angle : float)
    (fill : bool) (kw : kwargs) : M loc :=
  match List.find (λ kv, bool_decide (kv.1 ∈ Ellipse_explicit_keywords)) kw with
  | Some kv => raise (TypeError_multiple_values kv.1)
  | None =>
      match Patch_update kw with
      | Some e => raise e
      | None => alloc (OPatch {| ell_xy := xy; ell_width := width;
                                 ell_height := height; ell_angle := angle;
                                 ell_fill := fill; ell_style := kw |})
      end
  end.

(** The attributes of a [CameraDisplay]: [self.axes], [self.geom],
    [self.pixels] ([None] until the collection is made) and [self.cmap]. *)
Record CameraDisplay := mk_CameraDisplay {
  axes : loc;
  geom : CameraGeometry;
  pixels : option loc;
  cmap : colormap
}.

(** [self.pixels.<method>]: on [None] this is an [AttributeError]. *)
Definition self_pixels (method : string) (self : CameraDisplay) : M loc :=
  match pixels self with
  | Some p => mret p
  | None => raise (AttributeError method)
  end.

(** [radii*np.pi*550], on an array: elementwise, left to right. *)
Definition _radius_to_size (radii : list float) : list float :=
  (λ r, (r * np_pi * 550)%float) <$> radii.

(** [CameraDisplay(geometry, axes, title)].  [axes_arg] is [None] for the
    default, and [title] is ["Camera"] by default.  The statements are in
    the order of the source; a display is returned only when none of them
    raises. *)
Definition __init__ (geometry : CameraGeometry) (axes_arg : option loc)
    (title : string) : M CameraDisplay :=
  ax ← match axes_arg with Some a => mret a | None => plt_gca end;
  let xx := qvalue (pix_x geometry) in
  let yy := qvalue (pix_y geometry) in
  let rr := coldata (pix_r geometry) in
  let offs := zip xx yy in
  offset_trans ← Axes_transData ax;
  fig ← Axes_get_figure ax;
  let trans := trans_add (dpi_scale_trans fig) (Affine2D_scale (1 / 72)%float) in
  Axes_set_aspect ax "equal" "datalim";;
  p ← (if String.eqb (pix_type geometry) "hexagonal" then
         p ← new_RegularPolyCollection 6 (np_radians 0) offs
               (_radius_to_size rr) offset_trans;
         Coll_set_cmap p plt_cm_jet;;
         Coll_set_linewidth p 0%float;;
         Coll_set_array p (np_zeros_like (pix_x geometry));;
         Coll_set_transform p trans;;
         Axes_add_collection ax p true;;
         mret p
       else
         raise (ValueError (UnimplementedPixelType (pix_type geometry))));
  Axes_set_title ax title;;
  Axes_set_xlabel ax ("X position (" +:+ qunit (pix_x geometry) +:+ ")");;
  Axes_set_ylabel ax ("Y position (" +:+ qunit (pix_y geometry) +:+ ")");;
  Axes_autoscale_view ax;;
  mret {| axes := ax; geom := geometry; pixels := Some p; cmap := plt_cm_jet |}.

(** [self.pixels.set_cmap(cmap)]. *)
Definition set_cmap (self : CameraDisplay) (cm : colormap) : M () :=
  p ← self_pixels "set_cmap" self;
  Coll_set_cmap p cm.

(** The shapes are compared as tuples; then the array is handed to the
    collection and a redraw is requested. *)
Definition draw_image (self : CameraDisplay) (image : ndarray) : M () :=
  (if bool_decide (shape image ≠ Quantity_shape (pix_x (geom self))) then
     raise (ValueError (ImageShapeMismatch (shape image)
                          (Quantity_shape (pix_x (geom self)))))
   else mret ());;
  p ← self_pixels "set_array" self;
  Coll_set_array p image;;
  plt_draw.

(** The ellipse takes [width] as its width and [length] as its height;
    [assymmetry] is a parameter the body does not mention. *)
Definition add_moment_ellipse (self : CameraDisplay) (centroid : float * float)
    (length width phi assymmetry : float) (kw : kwargs) : M loc :=
  ellipse ← new_Ellipse centroid width length (np_degrees phi) false kw;
  Axes_add_patch (axes self) ellipse;;
  plt_draw;;
  mret ellipse.

(** The three calls a constructed display offers, as data. *)
Inductive call :=
| call_set_cmap (cm : colormap)
| call_draw_image (image : ndarray)
| call_add_moment_ellipse (centroid : float * float)
    (length width phi assymmetry : float) (kw : kwargs).

(** Running a call, for the world it leaves; the returned ellipse, if
    any, is dropped. *)
Definition run (self : CameraDisplay) (c : call) : M () :=
  match c with
  | call_set_cmap cm => set_cmap self cm
  | call_draw_image image => draw_image self image
  | call_add_moment_ellipse centroid length width phi assymmetry kw =>
      add_moment_ellipse self centroid length width phi assymmetry kw;; mret ()
  end.

End CameraDisplay.

(** ** Observing a display in a world *)

(** The collection [self.pixels] refers to. *)
Definition pixel_collection (w : World) (d : CameraDisplay) : option RegularPolyCollection :=
  match pixels d with
  | Some p => match heap w !! p with Some (OColl c) => Some c | _ => None end
  | None => None
  end.

(** The value array the collection holds. *)
Definition stored_array (w : World) (d : CameraDisplay) : option ndarray :=
  c ← pixel_collection w d; coll_array c.

(** The drawing surface [self.axes] refers to. *)
Definition surface (w : World) (d : CameraDisplay) : option Axes :=
  match heap w !! axes d with Some (OAxes a) => Some a | _ => None end.

(** A display whose two references are live and of the right class, as
    they are after [__init__] returns. *)
Definition display_ok (w : World) (d : CameraDisplay) : Prop :=
  is_Some (pixel_collection w d) ∧ is_Some (surface w d).

(** The axes [__init__] draws on. *)
Definition target_axes (w : World) (axes_arg : option loc) : loc :=
  default (gca w) axes_arg.

(** The reference [l] is to an axes. *)
Definition axes_live (w : World) (l : loc) : Prop :=
  ∃ a, heap w !! l = Some (OAxes a).

(** The number of markers of a collection. *)
Definition element_count (c : RegularPolyCollection) : nat := length (offsets c).

(** The invariant of the data model: as many markers as pixels, and a
    value array, when there is one, in the shape of the pixel columns. *)
Definition count_inv (w : World) (d : CameraDisplay) : Prop :=
  ∃ c, pixel_collection w d = Some c
     ∧ element_count c = n_pixels (geom d)
     ∧ ∀ a, coll_array c = Some a → shape a = [n_pixels (geom d)].

(** Two states of a collection with the same markers: everything but the
    value array and the colour map agrees. *)
Definition same_markers (c c' : RegularPolyCollection) : Prop :=
  numsides c' = numsides c ∧ rotation c' = rotation c
  ∧ offsets c' = offsets c ∧ sizes c' = sizes c
  ∧ transOffset c' = transOffset c ∧ coll_linewidth c' = coll_linewidth c
  ∧ coll_transform c' = coll_transform c.

(** Two states of a collection that differ in the value array at most. *)
Definition same_but_array (c c' : RegularPolyCollection) : Prop :=
  same_markers c c' ∧ coll_cmap c' = coll_cmap c.

(** The state of a display: its surface and its pixel collection. *)
Definition display_state (w : World) (d : CameraDisplay)
    : option Axes * option RegularPolyCollection :=
  (surface w d, pixel_collection w d).

(** The patches on the surface of a display. *)
Definition surface_patches (w : World) (d : CameraDisplay) : option (list loc) :=
  ax_patches <$> surface w d.

(** A call made twice over, with the same arguments. *)
Definition twice (PU : kwargs → option exn) (d : CameraDisplay) (c : call) : M () :=
  run PU d c;; run PU d c.

(** The collection and the axes as [__init__] leaves them. *)
Definition init_collection (g : CameraGeometry) (ax : loc) (fig : nat) : RegularPolyCollection :=
  {| numsides := 6; rotation := np_radians 0;
     offsets := zip (qvalue (pix_x g)) (qvalue (pix_y g));
     sizes := _radius_to_size (coldata (pix_r g));
     transOffset := transData ax;
     coll_cmap := Some plt_cm_jet; coll_linewidth := Some 0%float;
     coll_array := Some (np_zeros_like (pix_x g));
     coll_transform := trans_add (dpi_scale_trans fig) (Affine2D_scale (1 / 72)%float) |}.

Definition init_axes (g : CameraGeometry) (title : string) (p : loc) (a : Axes) : Axes :=
  {| ax_figure := ax_figure a; ax_aspect := Some ("equal", "datalim");
     ax_collections := ax_collections a ++ [p]; ax_patches := ax_patches a;
     ax_title := title;
     ax_xlabel := "X position (" +:+ qunit (pix_x g) +:+ ")";
     ax_ylabel := "Y position (" +:+ qunit (pix_y g) +:+ ")";
     ax_autoscaled := true |}.

(** The ellipse [add_moment_ellipse] builds, and the world it leaves when
    it goes through on the axes [a]: the ellipse is a new object, the axes
    has it as its last patch, and one more redraw was requested. *)
Definition moment_ellipse (centroid : float * float) (length width phi : float)
    (kw : kwargs) : Ellipse :=
  mk_Ellipse centroid width length (np_degrees phi) false kw.

Definition after_ellipse (w : World) (d : CameraDisplay) (a : Axes) (el : Ellipse) : World :=
  {| heap := <[axes d := OAxes (with_patch (fresh (dom (heap w))) a)]>
               (<[fresh (dom (heap w)) := OPatch el]> (heap w));
     gca := gca w; draws := S (draws w) |}.

(** What a call makes of a live display whose collection is [c] at [p] and
    whose axes is [a]: the result and the world it leaves, one rule for
    each way a call can go. *)
Inductive call_effect (PU : kwargs → option exn) (w : World) (d : CameraDisplay)
    (p : loc) (c : RegularPolyCollection) (a : Axes) : call → result () → World → Prop :=
| effect_set_cmap cm :
    call_effect PU w d p c a (call_set_cmap cm) (Ok ())
      (with_heap (<[p := OColl (with_cmap cm c)]> (heap w)) w)
| effect_draw_image image :
    shape image = Quantity_shape (pix_x (geom d)) →
    call_effect PU w d p c a (call_draw_image image) (Ok ())
      {| heap := <[p := OColl (with_array image c)]> (heap w);
         gca := gca w; draws := S (draws w) |}
| effect_ellipse centroid length width phi assymmetry kw :
    call_effect PU w d p c a
      (call_add_moment_ellipse centroid length width phi assymmetry kw) (Ok ())
      (after_ellipse w d a (moment_ellipse centroid length width phi kw))
| effect_raise op e :
    call_effect PU w d p c a op (Raise e) w.

(** ** A small camera, for the examples *)

Definition blank_axes : Axes :=
  {| ax_figure := 1; ax_aspect := None; ax_collections := []; ax_patches := [];
     ax_title := ""; ax_xlabel := ""; ax_ylabel := ""; ax_autoscaled := false |}.

(** A world with one empty axes, the current one. *)
Definition w0 : World :=
  {| heap := {[ 1%positive := OAxes blank_axes ]}; gca := 1%positive; draws := 0 |}.

(** Three hexagonal pixels at (0,0), (1,0), (0,1). *)
Definition g3 : CameraGeometry :=
  {| pix_x := {| qvalue := [0; 1; 0]%float; qunit := "m" |};
     pix_y := {| qvalue := [0; 0; 1]%float; qunit := "m" |};
     pix_r := {| coldata := [0.125; 0.125; 0.125]%float |};
     pix_type := "hexagonal" |}.

(** The same pixels tagged as squares. *)
Definition g3_square : CameraGeometry :=
  {| pix_x := pix_x g3; pix_y := pix_y g3; pix_r := pix_r g3;
     pix_type := "rectangular" |}.

(** The display of [g3] on the current axes, and the world it is in. *)
Definition d3 : CameraDisplay :=
  {| axes := 1%positive; geom := g3; pixels := Some 2%positive; cmap := plt_cm_jet |}.

Definition w3 : World := (__init__ g3 None "Camera" w0).2.

(** The library taking any style. *)
Definition any_style : kwargs → option exn := λ _, None.

(** ** Sequences of calls, and further examples *)

(** Calls made one after the other, each on the world the one before
    left, whatever it returned: a caller that carries on after an
    exception. *)
Fixpoint run_all (PU : kwargs → option exn) (d : CameraDisplay) (ops : list call)
    (w : World) : World :=
  match ops with
  | [] => w
  | op :: ops => run_all PU d ops (run PU d op w).2
  end.

(** The redraws a call stands for, given how it ended: [set_cmap] has no
    [plt.draw()], the other two reach theirs only when nothing raised. *)
Definition requested_redraws (op : call) (r : result ()) : nat :=
  match r, op with
  | Raise _, _ => 0
  | Ok _, call_set_cmap _ => 0
  | Ok _, _ => 1
  end.

(** Two states of an axes that differ in the patches at most. *)
Definition same_axes_but_patches (a a' : Axes) : Prop :=
  ax_figure a' = ax_figure a ∧ ax_aspect a' = ax_aspect a
  ∧ ax_collections a' = ax_collections a ∧ ax_title a' = ax_title a
  ∧ ax_xlabel a' = ax_xlabel a ∧ ax_ylabel a' = ax_ylabel a
  ∧ ax_autoscaled a' = ax_autoscaled a.

(** A geometry whose columns disagree: three x, two y, one radius. *)
Definition g_ragged : CameraGeometry :=
  {| pix_x := {| qvalue := [0; 1; 0]%float; qunit := "m" |};
     pix_y := {| qvalue := [0; 0]%float; qunit := "m" |};
     pix_r := {| coldata := [0.125]%float |};
     pix_type := "hexagonal" |}.

(** The display [__init__] builds of it on the current axes of [w0]. *)
Definition d_ragged : CameraDisplay :=
  {| axes := 1%positive; geom := g_ragged; pixels := Some 2%positive;
     cmap := plt_cm_jet |}.

(** Two pixels, for a second camera on the axes of the first. *)
Definition g2 : CameraGeometry :=
  {| pix_x := {| qvalue := [2; 3]%float; qunit := "cm" |};
     pix_y := {| qvalue := [2; 2]%float; qunit := "cm" |};
     pix_r := {| coldata := [0.25; 0.25]%float |};
     pix_type := "hexagonal" |}.

(** The second display, on the axes of [d3], and the world with both. *)
Definition d2 : CameraDisplay :=
  {| axes := 1%positive; geom := g2; pixels := Some 3%positive; cmap := plt_cm_jet |}.

Definition w32 : World := (__init__ g2 (Some 1%positive) "Second" w3).2.

(** ** Reasoning about the monad and the heap *)

Lemma bind_Ok {A B} (m : M A) (f : A → M B) w a w' :
  m w = (Ok a, w') → (m ≫= f) w = f a w'.
Proof. intros H. unfold mbind, M_bind. by rewrite H. Qed.

Lemma bind_Raise {A B} (m : M A) (f : A → M B) w e w' :
  m w = (Raise e, w') → (m ≫= f) w = (Raise e, w').
Proof. intros H. unfold mbind, M_bind. by rewrite H. Qed.

Lemma get_axes_Ok s l a w :
  heap w !! l = Some (OAxes a) → get_axes s l w = (Ok a, w).
Proof. intros H. unfold get_axes. by rewrite H. Qed.

Lemma get_coll_Ok s l c w :
  heap w !! l = Some (OColl c) → get_coll s l w = (Ok c, w).
Proof. intros H. unfold get_coll. by rewrite H. Qed.

Lemma get_axes_Raise s l w :
  (∀ a, heap w !! l ≠ Some (OAxes a)) →
  get_axes s l w = (Raise (AttributeError s), w).
Proof.
  intros H. unfold get_axes.
  destruct (heap w !! l) as [[a| |]|] eqn:E; try done.
  by destruct (H a).
Qed.

Lemma fresh_not_live (w : World) : heap w !! fresh (dom (heap w)) = None.
Proof. apply not_elem_of_dom, is_fresh. Qed.

Lemma fresh_ne_live (w : World) l o :
  heap w !! l = Some o → l ≠ fresh (dom (heap w)).
Proof. intros H ->. by rewrite fresh_not_live in H. Qed.

(** ** What each method does to the world *)

Lemma update_axes_Ok s ax f a w :
  heap w !! ax = Some (OAxes a) →
  update_axes s ax f w = (Ok (), with_heap (<[ax := OAxes (f a)]> (heap w)) w).
Proof.
  intros H. unfold update_axes.
  by rewrite (bind_Ok _ _ _ _ _ (get_axes_Ok _ _ _ _ H)).
Qed.

Lemma update_axes_Raise s ax f w :
  (∀ a, heap w !! ax ≠ Some (OAxes a)) →
  update_axes s ax f w = (Raise (AttributeError s), w).
Proof. intros H. unfold update_axes. by apply bind_Raise, get_axes_Raise. Qed.

Lemma update_coll_Ok s p f c w :
  heap w !! p = Some (OColl c) →
  update_coll s p f w = (Ok (), with_heap (<[p := OColl (f c)]> (heap w)) w).
Proof.
  intros H. unfold update_coll.
  by rewrite (bind_Ok _ _ _ _ _ (get_coll_Ok _ _ _ _ H)).
Qed.

Lemma draw_image_Raise d image w :
  shape image ≠ Quantity_shape (pix_x (geom d)) →
  draw_image d image w =
    (Raise (ValueError (ImageShapeMismatch (shape image)
                          (Quantity_shape (pix_x (geom d))))), w).
Proof.
  intros H. unfold draw_image.
  rewrite bool_decide_true by done.
  by apply bind_Raise.
Qed.

Lemma draw_image_Ok d image w p c :
  pixels d = Some p →
  heap w !! p = Some (OColl c) →
  shape image = Quantity_shape (pix_x (geom d)) →
  draw_image d image w =
    (Ok (), {| heap := <[p := OColl (with_array image c)]> (heap w);
               gca := gca w; draws := S (draws w) |}).
Proof.
  intros Hp Hc Hs. unfold draw_image, self_pixels.
  rewrite bool_decide_false by (by intros ?).
  rewrite Hp.
  erewrite bind_Ok by reflexivity.
  erewrite bind_Ok by reflexivity.
  erewrite bind_Ok by (by apply update_coll_Ok).
  reflexivity.
Qed.

Lemma set_cmap_Ok d cm w p c :
  pixels d = Some p →
  heap w !! p = Some (OColl c) →
  set_cmap d cm w = (Ok (), with_heap (<[p := OColl (with_cmap cm c)]> (heap w)) w).
Proof.
  intros Hp Hc. unfold set_cmap, self_pixels. rewrite Hp.
  erewrite bind_Ok by reflexivity.
  by apply update_coll_Ok.
Qed.

Lemma dom_insert_live (h : gmap loc obj) l o o' :
  h !! l = Some o → dom (<[l := o']> h) = dom h.
Proof.
  intros H. rewrite dom_insert_L.
  apply subseteq_union_1_L, singleton_subseteq_l, elem_of_dom. eauto.
Qed.

Ltac heap_lookup :=
  cbn;
  repeat first [ rewrite lookup_insert_eq | rewrite lookup_insert_ne by done ];
  first [ reflexivity | eassumption ].

Ltac step_axes := erewrite bind_Ok by (apply update_axes_Ok; heap_lookup).
Ltac step_coll := erewrite bind_Ok by (apply update_coll_Ok; heap_lookup).

Lemma init_Ok g axes_arg title w a :
  heap w !! target_axes w axes_arg = Some (OAxes a) →
  pix_type g = "hexagonal" →
  __init__ g axes_arg title w =
    (Ok {| axes := target_axes w axes_arg; geom := g;
           pixels := Some (fresh (dom (heap w))); cmap := plt_cm_jet |},
     with_heap
       (<[target_axes w axes_arg :=
            OAxes (init_axes g title (fresh (dom (heap w))) a)]>
          (<[fresh (dom (heap w)) :=
               OColl (init_collection g (target_axes w axes_arg) (ax_figure a))]>
             (heap w))) w).
Proof.
  intros Ha Hhex.
  set (ax := target_axes w axes_arg) in *.
  assert (Hne : ax ≠ fresh (dom (heap w))) by (by eapply fresh_ne_live).
  assert (Hne' : fresh (dom (heap w)) ≠ ax) by done.
  unfold __init__.
  assert (Hax : (match axes_arg with Some a0 => mret a0 | None => plt_gca end) w = (Ok ax, w)).
  { subst ax. by destruct axes_arg. }
  erewrite bind_Ok by exact Hax.
  unfold Axes_transData, Axes_get_figure.
  erewrite bind_Ok; [| erewrite bind_Ok by (by apply get_axes_Ok); reflexivity ].
  erewrite bind_Ok; [| erewrite bind_Ok by (by apply get_axes_Ok); reflexivity ].
  unfold Axes_set_aspect, Axes_set_title, Axes_set_xlabel, Axes_set_ylabel,
    Axes_autoscale_view, Axes_add_collection, Coll_set_cmap, Coll_set_linewidth,
    Coll_set_array, Coll_set_transform, new_RegularPolyCollection.
  step_axes.
  rewrite Hhex. change ("hexagonal" =? "hexagonal")%string with true. cbv iota.
  erewrite (bind_Ok (_ ≫= _)).
  2:{ erewrite bind_Ok by reflexivity.
      cbn [heap with_heap]. rewrite (dom_insert_live _ _ _ _ Ha).
      do 4 step_coll. step_axes. reflexivity. }
  do 4 step_axes.
  unfold mret, M_ret. f_equal.
  unfold with_heap; cbn. f_equal.
  apply map_eq. intros l.
  destruct (decide (l = ax)) as [->|]; [by rewrite !lookup_insert_eq|].
  rewrite !(lookup_insert_ne _ ax) by done.
  destruct (decide (l = fresh (dom (heap w)))) as [->|]; [by rewrite !lookup_insert_eq|].
  by rewrite !lookup_insert_ne by done.
Qed.

Lemma target_axes_eq w axes_arg :
  (match axes_arg with Some a0 => mret a0 | None => plt_gca end) w
  = (Ok (target_axes w axes_arg), w).
Proof. by destruct axes_arg. Qed.

Lemma init_Raise_pixel_type g axes_arg title w a :
  heap w !! target_axes w axes_arg = Some (OAxes a) →
  pix_type g ≠ "hexagonal" →
  __init__ g axes_arg title w =
    (Raise (ValueError (UnimplementedPixelType (pix_type g))),
     with_heap (<[target_axes w axes_arg :=
                    OAxes (with_aspect "equal" "datalim" a)]> (heap w)) w).
Proof.
  intros Ha Hhex. unfold __init__.
  erewrite bind_Ok by apply target_axes_eq.
  unfold Axes_transData, Axes_get_figure.
  erewrite bind_Ok; [| erewrite bind_Ok by (by apply get_axes_Ok); reflexivity ].
  erewrite bind_Ok; [| erewrite bind_Ok by (by apply get_axes_Ok); reflexivity ].
  unfold Axes_set_aspect. step_axes.
  apply String.eqb_neq in Hhex. rewrite Hhex.
  by apply bind_Raise.
Qed.

Lemma init_Raise_no_axes g axes_arg title w :
  (∀ a, heap w !! target_axes w axes_arg ≠ Some (OAxes a)) →
  __init__ g axes_arg title w = (Raise (AttributeError "transData"), w).
Proof.
  intros Ha. unfold __init__.
  erewrite bind_Ok by apply target_axes_eq.
  apply bind_Raise. unfold Axes_transData.
  by apply bind_Raise, get_axes_Raise.
Qed.

(** The reference [__init__] draws on is an axes, or it is not. *)
Lemma axes_live_cases (w : World) (l : loc) :
  axes_live w l ∨ (∀ a, heap w !! l ≠ Some (OAxes a)).
Proof.
  unfold axes_live. destruct (heap w !! l) as [[a| |]|]; eauto.
Qed.

Lemma init_Ok_inv g axes_arg title w d w' :
  __init__ g axes_arg title w = (Ok d, w') →
  pix_type g = "hexagonal" ∧ axes_live w (target_axes w axes_arg).
Proof.
  intros H.
  destruct (axes_live_cases w (target_axes w axes_arg)) as [[a Ha]|Hn].
  - split; [|by exists a].
    destruct (decide (pix_type g = "hexagonal")) as [|Hne]; [done|].
    by rewrite (init_Raise_pixel_type _ _ _ _ _ Ha Hne) in H.
  - by rewrite (init_Raise_no_axes _ _ _ _ Hn) in H.
Qed.

Lemma find_clash_None (kw : kwargs) :
  Forall (λ kv, kv.1 ∉ Ellipse_explicit_keywords) kw →
  List.find (λ kv, bool_decide (kv.1 ∈ Ellipse_explicit_keywords)) kw = None.
Proof.
  induction 1 as [|kv kw Hkv _ IH]; [done|].
  cbn [List.find]. by rewrite bool_decide_false.
Qed.

Lemma new_Ellipse_Ok PU xy width height angle fill kw w :
  Forall (λ kv, kv.1 ∉ Ellipse_explicit_keywords) kw →
  PU kw = None →
  new_Ellipse PU xy width height angle fill kw w =
    (Ok (fresh (dom (heap w))),
     with_heap (<[fresh (dom (heap w)) :=
                    OPatch (mk_Ellipse xy width height angle fill kw)]> (heap w)) w).
Proof.
  intros Hkw HPU. unfold new_Ellipse.
  by rewrite (find_clash_None _ Hkw), HPU.
Qed.

(** Whether the constructor raises does not depend on the world. *)
Lemma new_Ellipse_cases PU xy width height angle fill kw :
  (∃ e, ∀ w, new_Ellipse PU xy width height angle fill kw w = (Raise e, w)) ∨
  (∀ w, new_Ellipse PU xy width height angle fill kw w =
     (Ok (fresh (dom (heap w))),
      with_heap (<[fresh (dom (heap w)) :=
                     OPatch (mk_Ellipse xy width height angle fill kw)]> (heap w)) w)).
Proof.
  unfold new_Ellipse, raise, alloc.
  destruct (List.find _ kw); [eauto|].
  destruct (PU kw); eauto.
Qed.

Lemma add_moment_ellipse_step PU d centroid length width phi assymmetry kw w a :
  heap w !! axes d = Some (OAxes a) →
  new_Ellipse PU centroid width length (np_degrees phi) false kw w =
    (Ok (fresh (dom (heap w))),
     with_heap (<[fresh (dom (heap w)) :=
                    OPatch (moment_ellipse centroid length width phi kw)]> (heap w)) w) →
  add_moment_ellipse PU d centroid length width phi assymmetry kw w =
    (Ok (fresh (dom (heap w))),
     after_ellipse w d a (moment_ellipse centroid length width phi kw)).
Proof.
  intros Ha Hnew. unfold add_moment_ellipse.
  assert (axes d ≠ fresh (dom (heap w))) by (by eapply fresh_ne_live).
  erewrite bind_Ok by exact Hnew.
  unfold Axes_add_patch. step_axes.
  reflexivity.
Qed.

Lemma add_moment_ellipse_Ok PU d centroid length width phi assymmetry kw w a :
  heap w !! axes d = Some (OAxes a) →
  Forall (λ kv, kv.1 ∉ Ellipse_explicit_keywords) kw →
  PU kw = None →
  add_moment_ellipse PU d centroid length width phi assymmetry kw w =
    (Ok (fresh (dom (heap w))),
     after_ellipse w d a (moment_ellipse centroid length width phi kw)).
Proof.
  intros Ha Hkw HPU. apply add_moment_ellipse_step; [done|].
  by apply new_Ellipse_Ok.
Qed.

(** The method either raises out of the constructor of the ellipse, with
    the world untouched, or goes through on every live surface. *)
Lemma add_moment_ellipse_cases PU d centroid length width phi assymmetry kw :
  (∃ e, ∀ w, add_moment_ellipse PU d centroid length width phi assymmetry kw w
             = (Raise e, w)) ∨
  (∀ w a, heap w !! axes d = Some (OAxes a) →
     add_moment_ellipse PU d centroid length width phi assymmetry kw w =
       (Ok (fresh (dom (heap w))),
        after_ellipse w d a (moment_ellipse centroid length width phi kw))).
Proof.
  destruct (new_Ellipse_cases PU centroid width length (np_degrees phi) false kw)
    as [[e He]|Hnew].
  - left. exists e. intros w. unfold add_moment_ellipse. by apply bind_Raise.
  - right. intros w a Ha. by apply add_moment_ellipse_step.
Qed.

(** ** Live displays *)

Lemma display_ok_inv w d :
  display_ok w d →
  ∃ p c a, pixels d = Some p ∧ heap w !! p = Some (OColl c)
         ∧ heap w !! axes d = Some (OAxes a).
Proof.
  unfold display_ok, pixel_collection, surface. intros [[c Hc] [a Ha]].
  destruct (pixels d) as [p|]; [|done].
  destruct (heap w !! p) as [[| c0 |]|] eqn:Ep; try done.
  destruct (heap w !! axes d) as [[a0| |]|] eqn:Ea; try done.
  by exists p, c0, a0.
Qed.

Lemma display_ok_intro w d p c a :
  pixels d = Some p → heap w !! p = Some (OColl c) →
  heap w !! axes d = Some (OAxes a) → display_ok w d.
Proof.
  intros Hp Hc Ha. unfold display_ok, pixel_collection, surface.
  rewrite Hp, Hc, Ha. eauto.
Qed.

Lemma pixel_collection_live w d p c :
  pixels d = Some p → heap w !! p = Some (OColl c) →
  pixel_collection w d = Some c.
Proof. intros Hp Hc. unfold pixel_collection. by rewrite Hp, Hc. Qed.

Lemma surface_live w d a :
  heap w !! axes d = Some (OAxes a) → surface w d = Some a.
Proof. intros Ha. unfold surface. by rewrite Ha. Qed.

(** The axes and the collection are different objects. *)
Lemma axes_ne_pixels w d p c a :
  heap w !! p = Some (OColl c) → heap w !! axes d = Some (OAxes a) → axes d ≠ p.
Proof. intros Hc Ha E. rewrite E in Ha. congruence. Qed.

Lemma shape_1d_len_size (image : ndarray) n :
  shape image = [n] → ndarray_len image = Some n ∧ ndarray_size image = n.
Proof.
  intros H. unfold ndarray_len, ndarray_size. rewrite H. cbn.
  split; [done|]. by rewrite Nat.mul_1_r.
Qed.

(** ** The model at work *)

(** A radius of 1/8 gives a marker size of about 215.98. *)
Example radius_to_size_eighth :
  _radius_to_size [0.125]%float = [0x1.aff80fb853c71p+7]%float.
Proof. by vm_compute. Qed.

(** The scale is two roundings, [r * pi] first and then [* 550]:
    multiplying by a folded constant [pi * 550] gives another double. *)
Example radius_to_size_rounds_twice :
  _radius_to_size [0x1.6666666666666p-1]%float = [0x1.2e60d7cdd43e9p+10]%float
  ∧ (0x1.6666666666666p-1 * (np_pi * 550))%float = 0x1.2e60d7cdd43e8p+10%float.
Proof. split; by vm_compute. Qed.

(** One radian is about 57.3 degrees. *)
Example degrees_of_one : np_degrees 1 = 0x1.ca5dc1a63c1f8p+5%float.
Proof. by vm_compute. Qed.

(** Construction on a geometry of squares raises after the aspect of the
    axes has been set: the axes keeps that change. *)
Example init_square_raises :
  __init__ g3_square None "Camera" w0
  = (Raise (ValueError (UnimplementedPixelType "rectangular")),
     with_heap {[ 1%positive := OAxes (with_aspect "equal" "datalim" blank_axes) ]} w0).
Proof. by vm_compute. Qed.

(** The scenario of three pixels: the display is built with three
    markers, an image of three values is drawn, one of two values is
    refused. *)
Example three_pixels :
  __init__ g3 None "Camera" w0 = (Ok d3, w3)
  ∧ (element_count <$> pixel_collection w3 d3) = Some 3
  ∧ (draw_image d3 (array1 [1; 2; 3]%float) w3).1 = Ok ()
  ∧ (draw_image d3 (array1 [1; 2]%float) w3).1
    = Raise (ValueError (ImageShapeMismatch [2] [3])).
Proof. repeat split; by vm_compute. Qed.

(** A style that repeats a keyword of the call is a [TypeError], and
    nothing is drawn. *)
Example add_moment_ellipse_fill_clash :
  add_moment_ellipse any_style d3 (0.5, 0.25)%float 2 1 1 0 [("fill", PyBool true)] w3
  = (Raise (TypeError_multiple_values "fill"), w3).
Proof. by vm_compute. Qed.

(** ** The claims *)

(** C1: for every image whose shape equals the shape of the geometry's
    pixel array, [draw_image] succeeds on a constructed display, and
    afterwards the value array stored in the pixel collection is the input
    image. *)
Theorem draw_image_stores_image w d image :
  display_ok w d →
  shape image = Quantity_shape (pix_x (geom d)) →
  ∃ w', draw_image d image w = (Ok (), w')
      ∧ stored_array w' d = Some image.
Proof.
  intros (p & c & a & Hp & Hc & Ha)%display_ok_inv Hs.
  eexists. split; [by eapply draw_image_Ok|].
  unfold stored_array.
  rewrite (pixel_collection_live _ _ p (with_array image c)); [done|done|].
  cbn. by rewrite lookup_insert_eq.
Qed.

Lemma draw_image_stores_image_witness :
  ∃ w', draw_image d3 (array1 [1; 2; 3]%float) w3 = (Ok (), w')
      ∧ stored_array w' d3 = Some (array1 [1; 2; 3]%float).
Proof.
  apply (draw_image_stores_image w3 d3 (array1 [1; 2; 3]%float)).
  - split; vm_compute; eauto.
  - reflexivity.
Defined.

(** C2: for every image whose length (the extent of its first axis, or
    its number of elements) is not the geometry's pixel count,
    [draw_image] raises the shape-mismatch error; the error comes before
    any mutation, so the world is the one before the call and the stored
    value array is unchanged. *)
Theorem draw_image_rejects_wrong_length w d image :
  ndarray_len image ≠ Some (n_pixels (geom d))
    ∨ ndarray_size image ≠ n_pixels (geom d) →
  ∃ w', draw_image d image w =
          (Raise (ValueError (ImageShapeMismatch (shape image)
                                [n_pixels (geom d)])), w')
      ∧ w' = w
      ∧ stored_array w' d = stored_array w d.
Proof.
  intros Hlen. exists w. split; [|done].
  apply draw_image_Raise. intros Hs.
  destruct (shape_1d_len_size _ _ Hs) as [Hl Hz].
  by destruct Hlen.
Qed.

Lemma draw_image_rejects_wrong_length_witness :
  ∃ w', draw_image d3 (array1 [1; 2]%float) w3 =
          (Raise (ValueError (ImageShapeMismatch [2] [3])), w')
      ∧ w' = w3
      ∧ stored_array w' d3 = stored_array w3 d3.
Proof.
  apply (draw_image_rejects_wrong_length w3 d3 (array1 [1; 2]%float)).
  left. discriminate.
Defined.

(** C10: [draw_image] compares the whole shape, not the length: an image
    with as many elements as there are pixels but in another shape (a
    two-dimensional reshaping of a valid image, say) is rejected with the
    shape-mismatch error. *)
Theorem draw_image_compares_full_shape w d image :
  ndarray_size image = n_pixels (geom d) →
  shape image ≠ Quantity_shape (pix_x (geom d)) →
  draw_image d image w =
    (Raise (ValueError (ImageShapeMismatch (shape image)
                          (Quantity_shape (pix_x (geom d))))), w).
Proof. intros _ Hs. by apply draw_image_Raise. Qed.

Lemma draw_image_compares_full_shape_witness :
  reshape [3; 1] (array1 [1; 2; 3]%float) = Some (mk_ndarray [3; 1] [1; 2; 3]%float)
  ∧ draw_image d3 (mk_ndarray [3; 1] [1; 2; 3]%float) w3 =
      (Raise (ValueError (ImageShapeMismatch [3; 1] [3])), w3).
Proof.
  split; [reflexivity|].
  apply (draw_image_compares_full_shape w3 d3 (mk_ndarray [3; 1] [1; 2; 3]%float)).
  - reflexivity.
  - discriminate.
Defined.

(** C3: for every geometry whose pixel-shape tag is not "hexagonal",
    construction never succeeds, and on an axes it raises the
    unsupported-shape error. *)
Theorem init_rejects_non_hexagonal g axes_arg title w :
  pix_type g ≠ "hexagonal" →
  (∀ d w', __init__ g axes_arg title w ≠ (Ok d, w'))
  ∧ (axes_live w (target_axes w axes_arg) →
     ∃ w', __init__ g axes_arg title w =
             (Raise (ValueError (UnimplementedPixelType (pix_type g))), w')).
Proof.
  intros Hhex. split.
  - intros d w' H. by destruct (init_Ok_inv _ _ _ _ _ _ H).
  - intros [a Ha]. eexists. by eapply init_Raise_pixel_type.
Qed.

Lemma init_rejects_non_hexagonal_witness :
  (∀ d w', __init__ g3_square None "Camera" w0 ≠ (Ok d, w'))
  ∧ (axes_live w0 (target_axes w0 None) →
     ∃ w', __init__ g3_square None "Camera" w0 =
             (Raise (ValueError (UnimplementedPixelType "rectangular")), w')).
Proof.
  apply (init_rejects_non_hexagonal g3_square None "Camera" w0).
  discriminate.
Defined.

(** C4: for every geometry tagged "hexagonal" (with its per-pixel columns
    of one length), construction on an axes succeeds and leaves a pixel
    collection of six-sided markers, one per pixel and at that pixel's
    (x, y), with outlines of width zero and a value array of zeros, one
    per pixel. *)
Theorem init_builds_pixel_collection g axes_arg title w :
  pix_type g = "hexagonal" →
  geometry_wf g →
  axes_live w (target_axes w axes_arg) →
  ∃ d w' c a,
    __init__ g axes_arg title w = (Ok d, w')
    ∧ geom d = g
    ∧ pixel_collection w' d = Some c
    ∧ numsides c = 6
    ∧ element_count c = n_pixels g
    ∧ (∀ i x y, qvalue (pix_x g) !! i = Some x → qvalue (pix_y g) !! i = Some y →
         offsets c !! i = Some (x, y))
    ∧ coll_linewidth c = Some 0%float
    ∧ coll_array c = Some a
    ∧ shape a = [n_pixels g]
    ∧ elems a = replicate (n_pixels g) 0%float.
Proof.
  intros Hhex [Hy Hr] [a Ha].
  eexists _, _, (init_collection g (target_axes w axes_arg) (ax_figure a)), _.
  split; [by apply init_Ok|].
  split; [done|].
  split.
  { apply pixel_collection_live with (p := fresh (dom (heap w))); [done|].
    cbn. rewrite lookup_insert_ne by (by eapply fresh_ne_live).
    by rewrite lookup_insert_eq. }
  split; [done|].
  split.
  { unfold element_count, init_collection; cbn.
    rewrite length_zip_with, Hy. unfold n_pixels. apply Nat.min_id. }
  split.
  { intros i x y Hx Hyi. unfold init_collection; cbn [offsets].
    by rewrite lookup_zip_with, Hx, Hyi. }
  done.
Qed.

Lemma init_builds_pixel_collection_witness :
  ∃ d w' c a,
    __init__ g3 None "Camera" w0 = (Ok d, w')
    ∧ geom d = g3
    ∧ pixel_collection w' d = Some c
    ∧ numsides c = 6
    ∧ element_count c = 3
    ∧ (∀ i x y, qvalue (pix_x g3) !! i = Some x → qvalue (pix_y g3) !! i = Some y →
         offsets c !! i = Some (x, y))
    ∧ coll_linewidth c = Some 0%float
    ∧ coll_array c = Some a
    ∧ shape a = [3]
    ∧ elems a = [0; 0; 0]%float.
Proof.
  apply (init_builds_pixel_collection g3 None "Camera" w0).
  - reflexivity.
  - split; reflexivity.
  - exists blank_axes. reflexivity.
Defined.

(** C5: the marker sizes computed at construction are the radii of the
    geometry scaled by pi and then by 550, element by element: the size of
    the marker of a pixel of radius [r] is [r * pi * 550]. *)
Theorem init_marker_sizes g axes_arg title w d w' :
  __init__ g axes_arg title w = (Ok d, w') →
  ∃ c, pixel_collection w' d = Some c
     ∧ length (sizes c) = length (coldata (pix_r g))
     ∧ ∀ i r, coldata (pix_r g) !! i = Some r →
         sizes c !! i = Some (r * np_pi * 550)%float.
Proof.
  intros H.
  destruct (init_Ok_inv _ _ _ _ _ _ H) as [Hhex [a Ha]].
  rewrite (init_Ok _ _ _ _ _ Ha Hhex) in H. injection H as <- <-.
  exists (init_collection g (target_axes w axes_arg) (ax_figure a)).
  split.
  { apply pixel_collection_live with (p := fresh (dom (heap w))); [done|].
    cbn. rewrite lookup_insert_ne by (by eapply fresh_ne_live).
    by rewrite lookup_insert_eq. }
  cbn. unfold _radius_to_size. split; [by rewrite length_fmap|].
  intros i r Hr. by rewrite list_lookup_fmap, Hr.
Qed.

Lemma init_marker_sizes_witness :
  ∃ c, pixel_collection w3 d3 = Some c
     ∧ length (sizes c) = 3
     ∧ ∀ i r, coldata (pix_r g3) !! i = Some r →
         sizes c !! i = Some (r * np_pi * 550)%float.
Proof.
  apply (init_marker_sizes g3 None "Camera" w0 d3 w3).
  vm_compute. reflexivity.
Defined.

(** C6: for every centroid, length, width and phi (and every style the
    call and the library take), [add_moment_ellipse] on a constructed
    display returns a new, unfilled ellipse centred at the centroid, at an
    angle of phi converted from radians to degrees, of the given width and
    with the given length as its height; the same ellipse is the last
    patch of the surface, and a redraw was requested. *)
Theorem add_moment_ellipse_returns_ellipse PU w d centroid length width phi assymmetry kw :
  display_ok w d →
  Forall (λ kv, kv.1 ∉ Ellipse_explicit_keywords) kw →
  PU kw = None →
  ∃ e w' el a a',
    add_moment_ellipse PU d centroid length width phi assymmetry kw w = (Ok e, w')
    ∧ heap w !! e = None
    ∧ heap w' !! e = Some (OPatch el)
    ∧ ell_xy el = centroid
    ∧ ell_angle el = np_degrees phi
    ∧ ell_width el = width
    ∧ ell_height el = length
    ∧ ell_fill el = false
    ∧ ell_style el = kw
    ∧ surface w d = Some a
    ∧ surface w' d = Some a'
    ∧ ax_patches a' = ax_patches a ++ [e]
    ∧ draws w' = S (draws w).
Proof.
  intros (p & c & a & Hp & Hc & Ha)%display_ok_inv Hkw HPU.
  assert (Hne : axes d ≠ fresh (dom (heap w))) by (by eapply fresh_ne_live).
  exists (fresh (dom (heap w))), (after_ellipse w d a (moment_ellipse centroid length width phi kw)),
    (moment_ellipse centroid length width phi kw), a, (with_patch (fresh (dom (heap w))) a).
  split; [by apply add_moment_ellipse_Ok|].
  split; [apply fresh_not_live|].
  split; [cbn; rewrite lookup_insert_ne by done; by rewrite lookup_insert_eq|].
  do 6 (split; [done|]).
  split; [by apply surface_live|].
  split; [apply surface_live; cbn; by rewrite lookup_insert_eq|].
  done.
Qed.

Lemma add_moment_ellipse_returns_ellipse_witness :
  ∃ e w' el a a',
    add_moment_ellipse any_style d3 (0.5, 0.25)%float 2 1 1 0 [("edgecolor", PyStr "red")] w3
      = (Ok e, w')
    ∧ heap w3 !! e = None
    ∧ heap w' !! e = Some (OPatch el)
    ∧ ell_xy el = (0.5, 0.25)%float
    ∧ ell_angle el = np_degrees 1
    ∧ ell_width el = 1%float
    ∧ ell_height el = 2%float
    ∧ ell_fill el = false
    ∧ ell_style el = [("edgecolor", PyStr "red")]
    ∧ surface w3 d3 = Some a
    ∧ surface w' d3 = Some a'
    ∧ ax_patches a' = ax_patches a ++ [e]
    ∧ draws w' = S (draws w3).
Proof.
  apply (add_moment_ellipse_returns_ellipse any_style w3 d3 (0.5, 0.25)%float 2 1 1 0
           [("edgecolor", PyStr "red")]).
  - split; vm_compute; eauto.
  - by apply (bool_decide_unpack _).
  - reflexivity.
Defined.

(** C9: the outcome of [add_moment_ellipse], the ellipse it returns and
    the world it leaves, is the same for any two values of [assymmetry],
    all other arguments being equal. *)
Theorem add_moment_ellipse_ignores_assymmetry PU d centroid length width phi
    (assymmetry1 assymmetry2 : float) kw w :
  add_moment_ellipse PU d centroid length width phi assymmetry1 kw w
  = add_moment_ellipse PU d centroid length width phi assymmetry2 kw w.
Proof. reflexivity. Qed.

(** ** Calls on a constructed display *)

Lemma same_markers_refl c : same_markers c c.
Proof. by repeat split. Qed.

Lemma run_set_cmap PU d cm w p c :
  pixels d = Some p → heap w !! p = Some (OColl c) →
  run PU d (call_set_cmap cm) w
  = (Ok (), with_heap (<[p := OColl (with_cmap cm c)]> (heap w)) w).
Proof. apply set_cmap_Ok. Qed.

Lemma run_add_moment_ellipse_Raise PU d centroid length width phi assymmetry kw e w :
  add_moment_ellipse PU d centroid length width phi assymmetry kw w = (Raise e, w) →
  run PU d (call_add_moment_ellipse centroid length width phi assymmetry kw) w
  = (Raise e, w).
Proof. intros H. cbn [run]. by apply bind_Raise. Qed.

Lemma run_add_moment_ellipse_Ok PU d centroid length width phi assymmetry kw l w w' :
  add_moment_ellipse PU d centroid length width phi assymmetry kw w = (Ok l, w') →
  run PU d (call_add_moment_ellipse centroid length width phi assymmetry kw) w
  = (Ok (), w').
Proof. intros H. cbn [run]. by erewrite bind_Ok by exact H. Qed.

Lemma run_effect PU w d p c a op :
  pixels d = Some p → heap w !! p = Some (OColl c) →
  heap w !! axes d = Some (OAxes a) →
  call_effect PU w d p c a op (run PU d op w).1 (run PU d op w).2.
Proof.
  intros Hp Hc Ha. destruct op as [cm|image|centroid length width phi assymmetry kw].
  - rewrite (run_set_cmap _ _ _ _ _ _ Hp Hc). constructor.
  - cbn [run].
    destruct (decide (shape image = Quantity_shape (pix_x (geom d)))) as [Hs|Hs].
    + rewrite (draw_image_Ok _ _ _ _ _ Hp Hc Hs). by constructor.
    + rewrite (draw_image_Raise _ _ _ Hs). constructor.
  - destruct (add_moment_ellipse_cases PU d centroid length width phi assymmetry kw)
      as [[e He]|Hok].
    + rewrite (run_add_moment_ellipse_Raise _ _ _ _ _ _ _ _ _ _ (He w)). constructor.
    + rewrite (run_add_moment_ellipse_Ok _ _ _ _ _ _ _ _ _ _ _ (Hok w a Ha)). constructor.
Qed.

(** C7 (as amended): every call on a constructed display, whether it
    returns or raises, keeps the display live and keeps the invariant that
    the collection has one marker and one value per pixel.  Of the
    collection only the value array and the colour map can change: the
    value array through [draw_image] alone, the colour map through
    [set_cmap] alone; markers, outlines and transforms stay as built. *)
Theorem calls_preserve_count PU w d op r w' :
  display_ok w d →
  count_inv w d →
  run PU d op w = (r, w') →
  display_ok w' d
  ∧ count_inv w' d
  ∧ ∃ c c', pixel_collection w d = Some c
      ∧ pixel_collection w' d = Some c'
      ∧ element_count c' = element_count c
      ∧ same_markers c c'
      ∧ (coll_array c' ≠ coll_array c → ∃ image, op = call_draw_image image)
      ∧ (coll_cmap c' ≠ coll_cmap c → ∃ cm, op = call_set_cmap cm).
Proof.
  intros (p & c & a & Hp & Hc & Ha)%display_ok_inv (c0 & Hc0 & Hn & Harr) Hrun.
  rewrite (pixel_collection_live _ _ _ _ Hp Hc) in Hc0. injection Hc0 as <-.
  assert (Hap : axes d ≠ p) by (by eapply axes_ne_pixels).
  pose proof (run_effect PU w d p c a op Hp Hc Ha) as Heff.
  rewrite Hrun in Heff. cbn [fst snd] in Heff.
  inversion Heff as [cm|image Hs|centroid length width phi assymmetry kw|op' e];
    subst; clear Heff.
  - (* set_cmap *)
    assert (Hc' : pixel_collection
                    (with_heap (<[p := OColl (with_cmap cm c)]> (heap w)) w) d
                  = Some (with_cmap cm c)).
    { apply pixel_collection_live with (p := p); [done|]. cbn. by rewrite lookup_insert_eq. }
    split; [|split].
    + eapply display_ok_intro; [done| |]; cbn.
      * by rewrite lookup_insert_eq.
      * by rewrite lookup_insert_ne.
    + exists (with_cmap cm c). by repeat split.
    + exists c, (with_cmap cm c).
      split; [by eapply pixel_collection_live|].
      split; [done|]. split; [done|]. split; [by repeat split|].
      split; [done|]. intros _. by exists cm.
  - (* draw_image, accepted *)
    assert (Hc' : pixel_collection
                    {| heap := <[p := OColl (with_array image c)]> (heap w);
                       gca := gca w; draws := S (draws w) |} d
                  = Some (with_array image c)).
    { apply pixel_collection_live with (p := p); [done|]. cbn. by rewrite lookup_insert_eq. }
    split; [|split].
    + eapply display_ok_intro; [done| |]; cbn.
      * by rewrite lookup_insert_eq.
      * by rewrite lookup_insert_ne.
    + exists (with_array image c). split; [done|]. split; [done|].
      cbn. by intros ? [= <-].
    + exists c, (with_array image c).
      split; [by eapply pixel_collection_live|].
      split; [done|]. split; [done|]. split; [by repeat split|].
      split; [|done]. intros _. by exists image.
  - (* add_moment_ellipse, through *)
    assert (Hfp : p ≠ fresh (dom (heap w))) by (by eapply fresh_ne_live).
    assert (Hc' : pixel_collection
                    (after_ellipse w d a (moment_ellipse centroid length width phi kw)) d
                  = Some c).
    { apply pixel_collection_live with (p := p); [done|]. cbn.
      rewrite lookup_insert_ne by done. by rewrite lookup_insert_ne. }
    split; [|split].
    + eapply display_ok_intro; [done| |]; cbn.
      * rewrite lookup_insert_ne by done. by rewrite lookup_insert_ne.
      * by rewrite lookup_insert_eq.
    + by exists c.
    + exists c, c.
      split; [by eapply pixel_collection_live|].
      split; [done|]. split; [done|]. split; [apply same_markers_refl|]. done.
  - (* an exception before any change *)
    split; [|split].
    + by eapply display_ok_intro.
    + exists c. split; [by eapply pixel_collection_live|done].
    + exists c, c.
      split; [by eapply pixel_collection_live|].
      split; [by eapply pixel_collection_live|].
      split; [done|]. split; [apply same_markers_refl|]. done.
Qed.

(** A display is live once constructed, and on a well-formed geometry it
    satisfies the invariant. *)
Lemma init_establishes_inv g axes_arg title w d w' :
  __init__ g axes_arg title w = (Ok d, w') →
  display_ok w' d ∧ (geometry_wf g → count_inv w' d).
Proof.
  intros H.
  destruct (init_Ok_inv _ _ _ _ _ _ H) as [Hhex [a Ha]].
  rewrite (init_Ok _ _ _ _ _ Ha Hhex) in H. injection H as <- <-.
  assert (Hne : target_axes w axes_arg ≠ fresh (dom (heap w)))
    by (by eapply fresh_ne_live).
  assert (Hp : heap (with_heap
             (<[target_axes w axes_arg :=
                  OAxes (init_axes g title (fresh (dom (heap w))) a)]>
                (<[fresh (dom (heap w)) :=
                     OColl (init_collection g (target_axes w axes_arg) (ax_figure a))]>
                   (heap w))) w) !! fresh (dom (heap w))
           = Some (OColl (init_collection g (target_axes w axes_arg) (ax_figure a)))).
  { cbn. rewrite lookup_insert_ne by done. by rewrite lookup_insert_eq. }
  split.
  - eapply display_ok_intro; [done|exact Hp|]. cbn. by rewrite lookup_insert_eq.
  - intros [Hy Hr]. eexists. split; [by eapply pixel_collection_live|].
    split.
    + unfold element_count, init_collection; cbn [offsets geom].
      rewrite length_zip_with, Hy. apply Nat.min_id.
    + cbn. by intros ? [= <-].
Qed.

Lemma calls_preserve_count_witness :
  display_ok (run any_style d3 (call_set_cmap "hot") w3).2 d3
  ∧ count_inv (run any_style d3 (call_set_cmap "hot") w3).2 d3
  ∧ ∃ c c', pixel_collection w3 d3 = Some c
      ∧ pixel_collection (run any_style d3 (call_set_cmap "hot") w3).2 d3 = Some c'
      ∧ element_count c' = element_count c
      ∧ same_markers c c'
      ∧ (coll_array c' ≠ coll_array c → ∃ image, call_set_cmap "hot" = call_draw_image image)
      ∧ (coll_cmap c' ≠ coll_cmap c → ∃ cm, call_set_cmap "hot" = call_set_cmap cm).
Proof.
  apply (calls_preserve_count any_style w3 d3 (call_set_cmap "hot") (Ok ())).
  - split; vm_compute; eauto.
  - eexists. split; [vm_compute; reflexivity|].
    split; [reflexivity|]. intros a [= <-]. reflexivity.
  - vm_compute. reflexivity.
Defined.

(** C7, as stated, fails: [set_cmap] changes the pixel collection in more
    than its value array, namely in its colour map. *)
Lemma set_cmap_changes_more_than_array :
  ∃ w' c c',
    run any_style d3 (call_set_cmap "hot") w3 = (Ok (), w')
    ∧ pixel_collection w3 d3 = Some c
    ∧ pixel_collection w' d3 = Some c'
    ∧ coll_array c' = coll_array c
    ∧ ¬ same_but_array c c'.
Proof.
  eexists _, _, _.
  split; [by vm_compute|].
  split; [by vm_compute|].
  split; [by vm_compute|].
  split; [done|].
  intros [_ Hcm]. discriminate Hcm.
Qed.

Lemma twice_Raise PU d op w e :
  run PU d op w = (Raise e, w) → twice PU d op w = (Raise e, w).
Proof. intros H. unfold twice. by apply bind_Raise. Qed.

Lemma twice_Ok PU d op w w1 :
  run PU d op w = (Ok (), w1) → twice PU d op w = run PU d op w1.
Proof. intros H. unfold twice. by erewrite bind_Ok by exact H. Qed.

(** C8 (as amended): [set_cmap] and [draw_image] are idempotent on the
    objects of the display: made twice with the same arguments they return
    what they return made once, and leave the same heap, hence the same
    display state ([draw_image] requests a redraw per call).
    [add_moment_ellipse] is not idempotent: when it goes through, making
    it again goes through too and puts a second, different ellipse on the
    surface. *)
Theorem calls_idempotent_but_ellipse PU w d :
  display_ok w d →
  (∀ cm,
     (twice PU d (call_set_cmap cm) w).1 = (run PU d (call_set_cmap cm) w).1
     ∧ heap (twice PU d (call_set_cmap cm) w).2 = heap (run PU d (call_set_cmap cm) w).2
     ∧ display_state (twice PU d (call_set_cmap cm) w).2 d
       = display_state (run PU d (call_set_cmap cm) w).2 d)
  ∧ (∀ image,
     (twice PU d (call_draw_image image) w).1 = (run PU d (call_draw_image image) w).1
     ∧ heap (twice PU d (call_draw_image image) w).2
       = heap (run PU d (call_draw_image image) w).2
     ∧ display_state (twice PU d (call_draw_image image) w).2 d
       = display_state (run PU d (call_draw_image image) w).2 d)
  ∧ (∀ centroid length width phi assymmetry kw w1,
     run PU d (call_add_moment_ellipse centroid length width phi assymmetry kw) w
       = (Ok (), w1) →
     ∃ w2 ps e1 e2,
       twice PU d (call_add_moment_ellipse centroid length width phi assymmetry kw) w
         = (Ok (), w2)
       ∧ e1 ≠ e2
       ∧ surface_patches w d = Some ps
       ∧ surface_patches w1 d = Some (ps ++ [e1])
       ∧ surface_patches w2 d = Some (ps ++ [e1; e2])).
Proof.
  intros (p & c & a & Hp & Hc & Ha)%display_ok_inv.
  assert (Hstate : ∀ w1 w2, heap w1 = heap w2 → display_state w1 d = display_state w2 d).
  { intros w1 w2 E. unfold display_state, surface, pixel_collection. by rewrite E. }
  split; [|split].
  - intros cm.
    rewrite (twice_Ok _ _ _ _ _ (run_set_cmap PU d cm w p c Hp Hc)).
    rewrite (run_set_cmap PU d cm _ p (with_cmap cm c) Hp)
      by (cbn; by rewrite lookup_insert_eq).
    rewrite (run_set_cmap PU d cm w p c Hp Hc).
    assert (E : heap (with_heap (<[p := OColl (with_cmap cm (with_cmap cm c))]>
                  (heap (with_heap (<[p := OColl (with_cmap cm c)]> (heap w)) w)))
                  (with_heap (<[p := OColl (with_cmap cm c)]> (heap w)) w))
                = heap (with_heap (<[p := OColl (with_cmap cm c)]> (heap w)) w)).
    { cbn. by rewrite insert_insert_eq. }
    split; [done|]. split; [exact E|]. by apply Hstate.
  - intros image. cbn [run].
    destruct (decide (shape image = Quantity_shape (pix_x (geom d)))) as [Hs|Hs].
    + pose proof (draw_image_Ok d image w p c Hp Hc Hs) as H1.
      rewrite (twice_Ok PU d (call_draw_image image) _ _ H1). cbn [run].
      rewrite (draw_image_Ok d image _ p (with_array image c) Hp)
        by (first [done | cbn; by rewrite lookup_insert_eq]).
      rewrite H1.
      assert (E : <[p := OColl (with_array image (with_array image c))]>
                    (<[p := OColl (with_array image c)]> (heap w))
                  = <[p := OColl (with_array image c)]> (heap w)).
      { by rewrite insert_insert_eq. }
      split; [done|]. split; [exact E|]. by apply Hstate.
    + pose proof (draw_image_Raise d image w Hs) as H1.
      rewrite (twice_Raise PU d (call_draw_image image) _ _ H1). cbn [run].
      by rewrite H1.
  - intros centroid length width phi assymmetry kw w1 Hrun.
    destruct (add_moment_ellipse_cases PU d centroid length width phi assymmetry kw)
      as [[e He]|Hok].
    { by rewrite (run_add_moment_ellipse_Raise _ _ _ _ _ _ _ _ _ _ (He w)) in Hrun. }
    rewrite (run_add_moment_ellipse_Ok _ _ _ _ _ _ _ _ _ _ _ (Hok w a Ha)) in Hrun.
    injection Hrun as <-.
    set (el := moment_ellipse centroid length width phi kw) in *.
    set (e1 := fresh (dom (heap w))).
    assert (Ha1 : heap (after_ellipse w d a el) !! axes d = Some (OAxes (with_patch e1 a))).
    { cbn. by rewrite lookup_insert_eq. }
    assert (He1 : heap (after_ellipse w d a el) !! e1 = Some (OPatch el)).
    { cbn. rewrite lookup_insert_ne by (by eapply fresh_ne_live).
      by rewrite lookup_insert_eq. }
    exists (after_ellipse (after_ellipse w d a el) d (with_patch e1 a) el),
      (ax_patches a), e1, (fresh (dom (heap (after_ellipse w d a el)))).
    split.
    { rewrite (twice_Ok _ _ _ _ _
                 (run_add_moment_ellipse_Ok _ _ _ _ _ _ _ _ _ _ _ (Hok w a Ha))).
      by apply run_add_moment_ellipse_Ok with
        (l := fresh (dom (heap (after_ellipse w d a el)))), Hok. }
    split; [by eapply fresh_ne_live|].
    unfold surface_patches.
    split; [by rewrite (surface_live _ _ _ Ha)|].
    split; [by rewrite (surface_live _ _ _ Ha1)|].
    rewrite (surface_live _ d (with_patch (fresh (dom (heap (after_ellipse w d a el))))
                                 (with_patch e1 a))).
    + cbn. by rewrite <- app_assoc.
    + cbn. by rewrite lookup_insert_eq.
Qed.

Lemma calls_idempotent_but_ellipse_witness :
  (∀ cm,
     (twice any_style d3 (call_set_cmap cm) w3).1 = (run any_style d3 (call_set_cmap cm) w3).1
     ∧ heap (twice any_style d3 (call_set_cmap cm) w3).2
       = heap (run any_style d3 (call_set_cmap cm) w3).2
     ∧ display_state (twice any_style d3 (call_set_cmap cm) w3).2 d3
       = display_state (run any_style d3 (call_set_cmap cm) w3).2 d3)
  ∧ (∀ image,
     (twice any_style d3 (call_draw_image image) w3).1
       = (run any_style d3 (call_draw_image image) w3).1
     ∧ heap (twice any_style d3 (call_draw_image image) w3).2
       = heap (run any_style d3 (call_draw_image image) w3).2
     ∧ display_state (twice any_style d3 (call_draw_image image) w3).2 d3
       = display_state (run any_style d3 (call_draw_image image) w3).2 d3)
  ∧ (∀ centroid length width phi assymmetry kw w1,
     run any_style d3 (call_add_moment_ellipse centroid length width phi assymmetry kw) w3
       = (Ok (), w1) →
     ∃ w2 ps e1 e2,
       twice any_style d3 (call_add_moment_ellipse centroid length width phi assymmetry kw) w3
         = (Ok (), w2)
       ∧ e1 ≠ e2
       ∧ surface_patches w3 d3 = Some ps
       ∧ surface_patches w1 d3 = Some (ps ++ [e1])
       ∧ surface_patches w2 d3 = Some (ps ++ [e1; e2])).
Proof.
  apply (calls_idempotent_but_ellipse any_style w3 d3).
  split; vm_compute; eauto.
Defined.

(** C8, as stated, fails: [add_moment_ellipse] made twice with the same
    arguments leaves two ellipses on the surface, made once it leaves
    one. *)
Lemma add_moment_ellipse_not_idempotent :
  surface_patches (run any_style d3 (call_add_moment_ellipse (0.5, 0.25)%float 2 1 1 0 []) w3).2 d3
    = Some [3%positive]
  ∧ surface_patches (twice any_style d3 (call_add_moment_ellipse (0.5, 0.25)%float 2 1 1 0 []) w3).2 d3
    = Some [3%positive; 4%positive]
  ∧ display_state (twice any_style d3 (call_add_moment_ellipse (0.5, 0.25)%float 2 1 1 0 []) w3).2 d3
    ≠ display_state (run any_style d3 (call_add_moment_ellipse (0.5, 0.25)%float 2 1 1 0 []) w3).2 d3.
Proof.
  split; [by vm_compute|]. split; [by vm_compute|].
  vm_compute. discriminate.
Qed.

(** ** Further properties of construction *)

(** X1: construction returns a display exactly when the pixel tag is
    "hexagonal" and the surface it is to draw on is an axes. *)
Theorem init_succeeds_iff g axes_arg title w :
  (∃ d w', __init__ g axes_arg title w = (Ok d, w'))
  ↔ pix_type g = "hexagonal" ∧ axes_live w (target_axes w axes_arg).
Proof.
  split.
  - intros (d & w' & H). by eapply init_Ok_inv.
  - intros [Hhex [a Ha]]. eexists _, _. by apply init_Ok.
Qed.

(** X2: a construction refused for its pixel tag has already changed the
    axes: the aspect is set to equal on the data limits.  Nothing else
    of the axes has changed, no collection was added, no object was made
    and no other object touched. *)
Theorem init_failure_leaves_aspect g axes_arg title w a :
  heap w !! target_axes w axes_arg = Some (OAxes a) →
  pix_type g ≠ "hexagonal" →
  ∃ w' a',
    __init__ g axes_arg title w
      = (Raise (ValueError (UnimplementedPixelType (pix_type g))), w')
    ∧ heap w' !! target_axes w axes_arg = Some (OAxes a')
    ∧ ax_aspect a' = Some ("equal", "datalim")
    ∧ ax_collections a' = ax_collections a
    ∧ ax_patches a' = ax_patches a
    ∧ ax_title a' = ax_title a
    ∧ ax_xlabel a' = ax_xlabel a
    ∧ ax_ylabel a' = ax_ylabel a
    ∧ ax_autoscaled a' = ax_autoscaled a
    ∧ dom (heap w') = dom (heap w)
    ∧ (∀ l, l ≠ target_axes w axes_arg → heap w' !! l = heap w !! l)
    ∧ draws w' = draws w.
Proof.
  intros Ha Hhex.
  eexists _, (with_aspect "equal" "datalim" a).
  split; [by apply init_Raise_pixel_type|].
  split; [cbn; by rewrite lookup_insert_eq|].
  do 7 (split; [done|]).
  split; [cbn; by eapply dom_insert_live|].
  split; [|done].
  intros l Hl. cbn. by rewrite lookup_insert_ne.
Qed.

Lemma init_failure_leaves_aspect_witness :
  ∃ w' a',
    __init__ g3_square None "Camera" w0
      = (Raise (ValueError (UnimplementedPixelType "rectangular")), w')
    ∧ heap w' !! 1%positive = Some (OAxes a')
    ∧ ax_aspect a' = Some ("equal", "datalim")
    ∧ ax_collections a' = []
    ∧ ax_patches a' = []
    ∧ ax_title a' = ""
    ∧ ax_xlabel a' = ""
    ∧ ax_ylabel a' = ""
    ∧ ax_autoscaled a' = false
    ∧ dom (heap w') = dom (heap w0)
    ∧ (∀ l, l ≠ 1%positive → heap w' !! l = heap w0 !! l)
    ∧ draws w' = 0.
Proof.
  apply (init_failure_leaves_aspect g3_square None "Camera" w0 blank_axes).
  - reflexivity.
  - discriminate.
Defined.

(** X3: a successful construction draws on the given axes, or on the
    current one when none is given, and dresses it: title as given, axis
    labels "X position (unit)" and "Y position (unit)" from the units of
    the pixel columns, equal aspect, autoscaled view.  The pixel
    collection comes last among the collections of the axes; the
    collections and patches that were there stay. *)
Theorem init_dresses_axes g axes_arg title w a :
  heap w !! target_axes w axes_arg = Some (OAxes a) →
  pix_type g = "hexagonal" →
  ∃ d w' p a',
    __init__ g axes_arg title w = (Ok d, w')
    ∧ axes d = target_axes w axes_arg
    ∧ pixels d = Some p
    ∧ cmap d = plt_cm_jet
    ∧ surface w' d = Some a'
    ∧ ax_title a' = title
    ∧ ax_xlabel a' = "X position (" +:+ qunit (pix_x g) +:+ ")"
    ∧ ax_ylabel a' = "Y position (" +:+ qunit (pix_y g) +:+ ")"
    ∧ ax_aspect a' = Some ("equal", "datalim")
    ∧ ax_autoscaled a' = true
    ∧ ax_collections a' = ax_collections a ++ [p]
    ∧ ax_patches a' = ax_patches a
    ∧ ax_figure a' = ax_figure a.
Proof.
  intros Ha Hhex.
  eexists _, _, (fresh (dom (heap w))), (init_axes g title (fresh (dom (heap w))) a).
  split; [by apply init_Ok|].
  do 3 (split; [done|]).
  split; [|done].
  apply surface_live. cbn. by rewrite lookup_insert_eq.
Qed.

Lemma init_dresses_axes_witness :
  ∃ d w' p a',
    __init__ g2 (Some 1%positive) "Second" w3 = (Ok d, w')
    ∧ axes d = 1%positive
    ∧ pixels d = Some p
    ∧ cmap d = plt_cm_jet
    ∧ surface w' d = Some a'
    ∧ ax_title a' = "Second"
    ∧ ax_xlabel a' = "X position (cm)"
    ∧ ax_ylabel a' = "Y position (cm)"
    ∧ ax_aspect a' = Some ("equal", "datalim")
    ∧ ax_autoscaled a' = true
    ∧ ax_collections a' = [2%positive] ++ [p]
    ∧ ax_patches a' = []
    ∧ ax_figure a' = 1.
Proof.
  apply (init_dresses_axes g2 (Some 1%positive) "Second" w3
           (init_axes g3 "Camera" 2%positive blank_axes)).
  - vm_compute. reflexivity.
  - reflexivity.
Defined.

(** X4: a successful construction makes exactly one new object, the pixel
    collection; apart from it and the axes no object of the world is
    touched, the current axes of pyplot stays the current one, and no
    redraw is requested. *)
Theorem init_frame g axes_arg title w d w' :
  __init__ g axes_arg title w = (Ok d, w') →
  ∃ p, pixels d = Some p
     ∧ heap w !! p = None
     ∧ dom (heap w') = {[p]} ∪ dom (heap w)
     ∧ (∀ l, l ≠ axes d → l ≠ p → heap w' !! l = heap w !! l)
     ∧ gca w' = gca w
     ∧ draws w' = draws w.
Proof.
  intros H.
  destruct (init_Ok_inv _ _ _ _ _ _ H) as [Hhex [a Ha]].
  rewrite (init_Ok _ _ _ _ _ Ha Hhex) in H. injection H as <- <-.
  exists (fresh (dom (heap w))).
  split; [done|].
  split; [apply fresh_not_live|].
  split.
  { cbn. erewrite dom_insert_live; [apply dom_insert_L|].
    rewrite lookup_insert_ne by (intros E; symmetry in E; revert E; by eapply fresh_ne_live).
    exact Ha. }
  split; [|done].
  intros l Hl Hp. cbn in *. rewrite lookup_insert_ne by done.
  by rewrite lookup_insert_ne.
Qed.

Lemma init_frame_witness :
  ∃ p, pixels d3 = Some p
     ∧ heap w0 !! p = None
     ∧ dom (heap w3) = {[p]} ∪ dom (heap w0)
     ∧ (∀ l, l ≠ axes d3 → l ≠ p → heap w3 !! l = heap w0 !! l)
     ∧ gca w3 = gca w0
     ∧ draws w3 = draws w0.
Proof.
  apply (init_frame g3 None "Camera" w0 d3 w3).
  vm_compute. reflexivity.
Defined.

(** X5: construction does not compare the lengths of the columns.  The
    markers are as many as the shorter of [pix_x] and [pix_y], the sizes
    as many as [pix_r], the values as many as [pix_x]: on columns of
    different lengths a display is built all the same. *)
Theorem init_truncates_columns g axes_arg title w d w' :
  __init__ g axes_arg title w = (Ok d, w') →
  ∃ c arr,
    pixel_collection w' d = Some c
    ∧ element_count c
      = length (qvalue (pix_x g)) `min` length (qvalue (pix_y g))
    ∧ length (sizes c) = length (coldata (pix_r g))
    ∧ coll_array c = Some arr
    ∧ shape arr = [length (qvalue (pix_x g))]
    ∧ length (elems arr) = length (qvalue (pix_x g)).
Proof.
  intros H.
  destruct (init_Ok_inv _ _ _ _ _ _ H) as [Hhex [a Ha]].
  rewrite (init_Ok _ _ _ _ _ Ha Hhex) in H. injection H as <- <-.
  exists (init_collection g (target_axes w axes_arg) (ax_figure a)),
    (np_zeros_like (pix_x g)).
  split.
  { apply pixel_collection_live with (p := fresh (dom (heap w))); [done|].
    cbn. rewrite lookup_insert_ne by (by eapply fresh_ne_live).
    by rewrite lookup_insert_eq. }
  split; [unfold element_count, init_collection; cbn [offsets]; apply length_zip_with|].
  split; [unfold init_collection, _radius_to_size; cbn [sizes]; apply length_fmap|].
  split; [done|]. split; [done|].
  cbn. apply length_replicate.
Qed.

Lemma init_truncates_columns_witness :
  ∃ c arr,
    pixel_collection (__init__ g_ragged None "Camera" w0).2 d_ragged = Some c
    ∧ element_count c = 3 `min` 2
    ∧ length (sizes c) = 1
    ∧ coll_array c = Some arr
    ∧ shape arr = [3]
    ∧ length (elems arr) = 3.
Proof.
  apply (init_truncates_columns g_ragged None "Camera" w0
           d_ragged
           (__init__ g_ragged None "Camera" w0).2).
  vm_compute. reflexivity.
Defined.

(** ** Further properties of the methods *)










(** With an image of the wrong shape the order shows: the colour map is
    set before the refusal, or not at all. *)
Example set_cmap_draw_image_order :
  (set_cmap d3 "hot";; draw_image d3 (array1 [1; 2]%float)) w3
  ≠ (draw_image d3 (array1 [1; 2]%float);; set_cmap d3 "hot") w3.
Proof. vm_compute. discriminate. Qed.

(** The first keyword of a style that the call spells out itself. *)
Lemma find_clash_Some (kw : kwargs) kv :
  kv ∈ kw → kv.1 ∈ Ellipse_explicit_keywords →
  ∃ kv', List.find (λ kv, bool_decide (kv.1 ∈ Ellipse_explicit_keywords)) kw = Some kv'
       ∧ kv' ∈ kw ∧ kv'.1 ∈ Ellipse_explicit_keywords.
Proof.
  intros Hin Hk.
  destruct (List.find _ kw) as [kv'|] eqn:E.
  - apply find_some in E as [Hin' Hb]. exists kv'.
    split; [done|]. split; [by apply list_elem_of_In|].
    by apply bool_decide_eq_true in Hb.
  - apply list_elem_of_In in Hin.
    pose proof (find_none _ _ E _ Hin) as Hb. cbn in Hb.
    by apply bool_decide_eq_false in Hb.
Qed.

Lemma find_clash_None_inv (kw : kwargs) :
  List.find (λ kv, bool_decide (kv.1 ∈ Ellipse_explicit_keywords)) kw = None →
  Forall (λ kv, kv.1 ∉ Ellipse_explicit_keywords) kw.
Proof.
  intros E. apply Forall_forall. intros kv Hin%list_elem_of_In.
  pose proof (find_none _ _ E _ Hin) as Hb. cbn in Hb.
  by apply bool_decide_eq_false in Hb.
Qed.

(** X10: a style that names one of the keywords the call spells out
    itself ([xy], [width], [height], [angle], [fill]) makes
    [add_moment_ellipse] raise a [TypeError] for such a keyword of the
    style; no ellipse is made, nothing is added to the surface and no
    redraw is requested. *)
Theorem add_moment_ellipse_keyword_clash PU w d centroid length width phi assymmetry kw k v :
  (k, v) ∈ kw →
  k ∈ Ellipse_explicit_keywords →
  ∃ k' v',
    (k', v') ∈ kw
    ∧ k' ∈ Ellipse_explicit_keywords
    ∧ add_moment_ellipse PU d centroid length width phi assymmetry kw w
      = (Raise (TypeError_multiple_values k'), w).
Proof.
  intros Hin Hk.
  destruct (find_clash_Some kw (k, v) Hin Hk) as ([k' v'] & Hf & Hin' & Hk').
  exists k', v'. split; [done|]. split; [done|].
  unfold add_moment_ellipse. apply bind_Raise.
  unfold new_Ellipse. by rewrite Hf.
Qed.

Lemma add_moment_ellipse_keyword_clash_witness :
  ∃ k' v',
    (k', v') ∈ [("edgecolor", PyStr "red"); ("fill", PyBool true)]
    ∧ k' ∈ Ellipse_explicit_keywords
    ∧ add_moment_ellipse any_style d3 (0.5, 0.25)%float 2 1 1 0
        [("edgecolor", PyStr "red"); ("fill", PyBool true)] w3
      = (Raise (TypeError_multiple_values k'), w3).
Proof.
  apply (add_moment_ellipse_keyword_clash any_style w3 d3 (0.5, 0.25)%float 2 1 1 0
           [("edgecolor", PyStr "red"); ("fill", PyBool true)] "fill" (PyBool true)).
  - apply list_elem_of_In. right. left. reflexivity.
  - by apply (bool_decide_unpack _).
Defined.

(** X11: on a constructed display [add_moment_ellipse] returns exactly
    when the style repeats no keyword of the call and the library takes
    it; and it is all or nothing: when it raises, the world is the one
    before the call. *)
Theorem add_moment_ellipse_all_or_nothing PU w d centroid length width phi assymmetry kw :
  display_ok w d →
  ((∃ e w', add_moment_ellipse PU d centroid length width phi assymmetry kw w = (Ok e, w'))
   ↔ Forall (λ kv, kv.1 ∉ Ellipse_explicit_keywords) kw ∧ PU kw = None)
  ∧ (∀ e w', add_moment_ellipse PU d centroid length width phi assymmetry kw w
             = (Raise e, w') → w' = w).
Proof.
  intros (p & c & a & Hp & Hc & Ha)%display_ok_inv.
  split; [split|].
  - intros (e & w' & H).
    unfold add_moment_ellipse, new_Ellipse, mbind, M_bind, raise in H.
    destruct (List.find _ kw) eqn:Ef; [discriminate H|].
    destruct (PU kw) eqn:EPU; [discriminate H|].
    split; [by apply find_clash_None_inv|done].
  - intros [Hkw HPU]. eexists _, _. by eapply add_moment_ellipse_Ok.
  - intros e w' H.
    destruct (add_moment_ellipse_cases PU d centroid length width phi assymmetry kw)
      as [[e' He]|Hok].
    + rewrite He in H. by injection H as _ <-.
    + by rewrite (Hok w a Ha) in H.
Qed.

Lemma add_moment_ellipse_all_or_nothing_witness :
  ((∃ e w', add_moment_ellipse any_style d3 (0.5, 0.25)%float 2 1 1 0 [] w3 = (Ok e, w'))
   ↔ Forall (λ kv : string * pyval, kv.1 ∉ Ellipse_explicit_keywords) [] ∧ any_style [] = None)
  ∧ (∀ e w', add_moment_ellipse any_style d3 (0.5, 0.25)%float 2 1 1 0 [] w3
             = (Raise e, w') → w' = w3).
Proof.
  apply (add_moment_ellipse_all_or_nothing any_style w3 d3 (0.5, 0.25)%float 2 1 1 0 []).
  split; vm_compute; eauto.
Defined.

(** ** One call, and many *)

(** What one call keeps of a live display: the display stays live, the
    collection keeps its markers and a value array of the shape it had or
    of the shape of the pixel columns, the axes changes in its patches at
    most and only by growing by one, and every ellipse stays as it is. *)
Lemma run_step PU w d op p c a :
  pixels d = Some p →
  heap w !! p = Some (OColl c) →
  heap w !! axes d = Some (OAxes a) →
  ∃ c' a' ps,
    heap (run PU d op w).2 !! p = Some (OColl c')
    ∧ heap (run PU d op w).2 !! axes d = Some (OAxes a')
    ∧ offsets c' = offsets c
    ∧ (coll_array c' = coll_array c
       ∨ ∃ image, coll_array c' = Some image
                ∧ shape image = Quantity_shape (pix_x (geom d)))
    ∧ same_axes_but_patches a a'
    ∧ ax_patches a' = ax_patches a ++ ps
    ∧ length ps ≤ 1
    ∧ (∀ l e, heap w !! l = Some (OPatch e) →
         heap (run PU d op w).2 !! l = Some (OPatch e))
    ∧ draws (run PU d op w).2
      = draws w + requested_redraws op (run PU d op w).1.
Proof.
  intros Hp Hc Ha.
  assert (Hap : p ≠ axes d).
  { intros E. symmetry in E. revert E. by eapply axes_ne_pixels. }
  pose proof (run_effect PU w d p c a op Hp Hc Ha) as Heff.
  destruct (run PU d op w) as [r w']. cbn [fst snd] in *.
  inversion Heff as [cm|image Hs|centroid length width phi assymmetry kw|op' e];
    subst; clear Heff.
  - exists (with_cmap cm c), a, []. cbn.
    rewrite lookup_insert_eq, (lookup_insert_ne _ p (axes d)) by done.
    rewrite app_nil_r, Nat.add_0_r.
    repeat split; eauto with lia.
    intros l e Hl. rewrite lookup_insert_ne; [done|]. intros ->. congruence.
  - exists (with_array image c), a, []. cbn.
    rewrite lookup_insert_eq, (lookup_insert_ne _ p (axes d)) by done.
    rewrite app_nil_r, Nat.add_1_r.
    repeat split; eauto with lia.
    intros l e Hl. rewrite lookup_insert_ne; [done|]. intros ->. congruence.
  - assert (Hfp : p ≠ fresh (dom (heap w))) by (by eapply fresh_ne_live).
    assert (Hfa : axes d ≠ fresh (dom (heap w))) by (by eapply fresh_ne_live).
    exists c, (with_patch (fresh (dom (heap w))) a), [fresh (dom (heap w))]. cbn.
    rewrite lookup_insert_eq, !(lookup_insert_ne _ _ p) by done.
    rewrite Nat.add_1_r.
    repeat split; eauto with lia.
    intros l e Hl.
    assert (axes d ≠ l) by (intros E; rewrite <- E in Hl; congruence).
    assert (fresh (dom (heap w)) ≠ l)
      by (intros E; rewrite <- E, fresh_not_live in Hl; congruence).
    by rewrite !lookup_insert_ne by done.
  - exists c, a, []. cbn. rewrite app_nil_r, Nat.add_0_r.
    repeat split; eauto with lia.
Qed.

Lemma same_axes_but_patches_refl a : same_axes_but_patches a a.
Proof. by repeat split. Qed.

Lemma same_axes_but_patches_trans a1 a2 a3 :
  same_axes_but_patches a1 a2 → same_axes_but_patches a2 a3 →
  same_axes_but_patches a1 a3.
Proof.
  intros (?&?&?&?&?&?&?) (?&?&?&?&?&?&?). repeat split; congruence.
Qed.

(** The same, for calls one after the other. *)
Lemma run_all_steps PU d p ops : ∀ w c a,
  pixels d = Some p →
  heap w !! p = Some (OColl c) →
  heap w !! axes d = Some (OAxes a) →
  ∃ c' a' ps,
    heap (run_all PU d ops w) !! p = Some (OColl c')
    ∧ heap (run_all PU d ops w) !! axes d = Some (OAxes a')
    ∧ offsets c' = offsets c
    ∧ (coll_array c' = coll_array c
       ∨ ∃ image, coll_array c' = Some image
                ∧ shape image = Quantity_shape (pix_x (geom d)))
    ∧ same_axes_but_patches a a'
    ∧ ax_patches a' = ax_patches a ++ ps
    ∧ length ps ≤ length ops
    ∧ (∀ l e, heap w !! l = Some (OPatch e) →
         heap (run_all PU d ops w) !! l = Some (OPatch e)).
Proof.
  induction ops as [|op ops IH]; intros w c a Hp Hc Ha.
  - exists c, a, []. cbn. rewrite app_nil_r.
    repeat split; eauto using same_axes_but_patches_refl.
  - destruct (run_step PU w d op p c a Hp Hc Ha)
      as (c1 & a1 & ps1 & Hc1 & Ha1 & Ho1 & Harr1 & Hs1 & Hps1 & Hl1 & Hkeep1 & _).
    destruct (IH _ c1 a1 Hp Hc1 Ha1)
      as (c2 & a2 & ps2 & Hc2 & Ha2 & Ho2 & Harr2 & Hs2 & Hps2 & Hl2 & Hkeep2).
    exists c2, a2, (ps1 ++ ps2). cbn [run_all].
    split; [done|]. split; [done|].
    split; [congruence|].
    split.
    { destruct Harr2 as [E|?]; [|by right]. rewrite E. exact Harr1. }
    split; [by eapply same_axes_but_patches_trans|].
    split; [by rewrite Hps2, Hps1, app_assoc|].
    split; [rewrite length_app; cbn [length]; lia|].
    intros l e Hl. by apply Hkeep2, Hkeep1.
Qed.

(** X12: a redraw is requested by a [draw_image] or an
    [add_moment_ellipse] that returns, once, and by nothing else:
    [set_cmap] requests none, and a call that raises requests none. *)
Theorem redraws_requested PU w d op r w' :
  display_ok w d →
  run PU d op w = (r, w') →
  draws w' = draws w + requested_redraws op r.
Proof.
  intros (p & c & a & Hp & Hc & Ha)%display_ok_inv Hrun.
  destruct (run_step PU w d op p c a Hp Hc Ha) as (? & ? & ? & H).
  rewrite Hrun in H. cbn [fst snd] in H. by decompose [and] H.
Qed.

Lemma redraws_requested_witness :
  draws (run any_style d3 (call_set_cmap "hot") w3).2
    = draws w3 + requested_redraws (call_set_cmap "hot") (Ok ())
  ∧ draws (run any_style d3 (call_draw_image (array1 [1; 2]%float)) w3).2
    = draws w3 + requested_redraws (call_draw_image (array1 [1; 2]%float))
                   (Raise (ValueError (ImageShapeMismatch [2] [3]))).
Proof.
  split.
  - apply (redraws_requested any_style w3 d3 (call_set_cmap "hot") (Ok ())
             (run any_style d3 (call_set_cmap "hot") w3).2).
    + split; vm_compute; eauto.
    + vm_compute. reflexivity.
  - apply (redraws_requested any_style w3 d3 (call_draw_image (array1 [1; 2]%float))
             (Raise (ValueError (ImageShapeMismatch [2] [3])))
             (run any_style d3 (call_draw_image (array1 [1; 2]%float)) w3).2).
    + split; vm_compute; eauto.
    + vm_compute. reflexivity.
Defined.

(** X13: no call takes anything off the surface.  After any calls, in any
    order and whatever each returned, the patches that were on the axes
    are still its first patches, at most one was added per call, and
    the rest of the axes (collections, title, labels, aspect) is as it
    was. *)
Theorem overlays_never_removed PU d ops w a :
  display_ok w d →
  surface w d = Some a →
  ∃ a' ps,
    surface (run_all PU d ops w) d = Some a'
    ∧ ax_patches a' = ax_patches a ++ ps
    ∧ length ps ≤ length ops
    ∧ same_axes_but_patches a a'.
Proof.
  intros (p & c & a0 & Hp & Hc & Ha)%display_ok_inv Hs.
  rewrite (surface_live _ _ _ Ha) in Hs. injection Hs as ->.
  destruct (run_all_steps PU d p ops w c a Hp Hc Ha)
    as (c' & a' & ps & _ & Ha' & _ & _ & Hsame & Hps & Hlen & _).
  exists a', ps. split; [by apply surface_live|done].
Qed.

Lemma overlays_never_removed_witness :
  ∃ a' ps,
    surface (run_all any_style d3
               [call_add_moment_ellipse (0.5, 0.25)%float 2 1 1 0 [];
                call_set_cmap "hot";
                call_add_moment_ellipse (0.5, 0.25)%float 2 1 1 0 [("fill", PyBool true)]]
               w3) d3 = Some a'
    ∧ ax_patches a' = ax_patches (init_axes g3 "Camera" 2%positive blank_axes) ++ ps
    ∧ length ps ≤ 3
    ∧ same_axes_but_patches (init_axes g3 "Camera" 2%positive blank_axes) a'.
Proof.
  apply (overlays_never_removed any_style d3
           [call_add_moment_ellipse (0.5, 0.25)%float 2 1 1 0 [];
            call_set_cmap "hot";
            call_add_moment_ellipse (0.5, 0.25)%float 2 1 1 0 [("fill", PyBool true)]]
           w3 (init_axes g3 "Camera" 2%positive blank_axes)).
  - split; vm_compute; eauto.
  - vm_compute. reflexivity.
Defined.

(** X14: a display constructed on a geometry whose columns agree stays
    live and keeps the invariant (one marker and one value per pixel)
    through any calls, in any order and whatever each returned. *)
Theorem constructed_display_stays_valid PU g axes_arg title w d w' ops :
  __init__ g axes_arg title w = (Ok d, w') →
  geometry_wf g →
  display_ok (run_all PU d ops w') d ∧ count_inv (run_all PU d ops w') d.
Proof.
  intros Hinit Hwf.
  destruct (init_establishes_inv _ _ _ _ _ _ Hinit) as [Hok Hinv].
  destruct (Hinv Hwf) as (c0 & Hc0 & Hn & Harr).
  destruct (display_ok_inv _ _ Hok) as (p & c & a & Hp & Hc & Ha).
  rewrite (pixel_collection_live _ _ _ _ Hp Hc) in Hc0. injection Hc0 as <-.
  destruct (run_all_steps PU d p ops w' c a Hp Hc Ha)
    as (c' & a' & ps & Hc' & Ha' & Hoff & Harr' & _).
  split; [by eapply display_ok_intro|].
  exists c'. split; [by eapply pixel_collection_live|].
  split; [unfold element_count in *; congruence|].
  intros arr Hc'arr.
  destruct Harr' as [E|(image & E & Hs)].
  - apply Harr. congruence.
  - rewrite E in Hc'arr. by injection Hc'arr as <-.
Qed.

Lemma constructed_display_stays_valid_witness :
  display_ok (run_all any_style d3
                [call_draw_image (array1 [1; 2]%float);
                 call_add_moment_ellipse (0.5, 0.25)%float 2 1 1 0 [];
                 call_draw_image (array1 [1; 2; 3]%float)] w3) d3
  ∧ count_inv (run_all any_style d3
                 [call_draw_image (array1 [1; 2]%float);
                  call_add_moment_ellipse (0.5, 0.25)%float 2 1 1 0 [];
                  call_draw_image (array1 [1; 2; 3]%float)] w3) d3.
Proof.
  apply (constructed_display_stays_valid any_style g3 None "Camera" w0 d3 w3).
  - vm_compute. reflexivity.
  - split; reflexivity.
Defined.

(** X15: an ellipse that [add_moment_ellipse] returned stays as it was
    built, and on the surface, through any later calls on the display. *)
Theorem returned_ellipse_is_kept PU w d centroid length width phi assymmetry kw e w1 ops :
  display_ok w d →
  add_moment_ellipse PU d centroid length width phi assymmetry kw w = (Ok e, w1) →
  heap (run_all PU d ops w1) !! e
    = Some (OPatch (moment_ellipse centroid length width phi kw))
  ∧ ∃ a', surface (run_all PU d ops w1) d = Some a' ∧ e ∈ ax_patches a'.
Proof.
  intros (p & c & a & Hp & Hc & Ha)%display_ok_inv Hadd.
  destruct (add_moment_ellipse_cases PU d centroid length width phi assymmetry kw)
    as [[e' He]|Hok]; [by rewrite He in Hadd|].
  rewrite (Hok w a Ha) in Hadd. injection Hadd as <- <-.
  set (el := moment_ellipse centroid length width phi kw).
  assert (Hfp : p ≠ fresh (dom (heap w))) by (by eapply fresh_ne_live).
  assert (Hfa : axes d ≠ fresh (dom (heap w))) by (by eapply fresh_ne_live).
  assert (Hap : axes d ≠ p) by (by eapply axes_ne_pixels).
  assert (Hc1 : heap (after_ellipse w d a el) !! p = Some (OColl c)).
  { cbn. by rewrite !lookup_insert_ne by done. }
  assert (Ha1 : heap (after_ellipse w d a el) !! axes d
                = Some (OAxes (with_patch (fresh (dom (heap w))) a))).
  { cbn. by rewrite lookup_insert_eq. }
  assert (He1 : heap (after_ellipse w d a el) !! fresh (dom (heap w)) = Some (OPatch el)).
  { cbn. rewrite lookup_insert_ne by done. by rewrite lookup_insert_eq. }
  destruct (run_all_steps PU d p ops _ c _ Hp Hc1 Ha1)
    as (c' & a' & ps & _ & Ha' & _ & _ & _ & Hps & _ & Hkeep).
  split; [by apply Hkeep|].
  exists a'. split; [by apply surface_live|].
  rewrite Hps. cbn. rewrite !elem_of_app, list_elem_of_singleton. auto.
Qed.

Lemma returned_ellipse_is_kept_witness :
  heap (run_all any_style d3
          [call_draw_image (array1 [1; 2; 3]%float); call_set_cmap "hot"]
          (add_moment_ellipse any_style d3 (0.5, 0.25)%float 2 1 1 0 [] w3).2)
    !! 3%positive
    = Some (OPatch (moment_ellipse (0.5, 0.25)%float 2 1 1 []))
  ∧ ∃ a', surface (run_all any_style d3
                     [call_draw_image (array1 [1; 2; 3]%float); call_set_cmap "hot"]
                     (add_moment_ellipse any_style d3 (0.5, 0.25)%float 2 1 1 0 [] w3).2)
            d3 = Some a'
        ∧ 3%positive ∈ ax_patches a'.
Proof.
  apply (returned_ellipse_is_kept any_style w3 d3 (0.5, 0.25)%float 2 1 1 0 []).
  - split; vm_compute; eauto.
  - vm_compute. reflexivity.
Defined.

(** ** Two displays *)

(** X16: a second display can be constructed on the axes of a first.  It
    gets a collection of its own, the first display stays live with its
    collection as it was, and the axes holds the new collection after the
    ones it had; title and labels are now those of the second. *)
Theorem second_display_keeps_first g title w d1 :
  display_ok w d1 →
  pix_type g = "hexagonal" →
  ∃ d2 w' p2 a a',
    __init__ g (Some (axes d1)) title w = (Ok d2, w')
    ∧ axes d2 = axes d1
    ∧ pixels d2 = Some p2
    ∧ pixels d2 ≠ pixels d1
    ∧ display_ok w' d1
    ∧ display_ok w' d2
    ∧ pixel_collection w' d1 = pixel_collection w d1
    ∧ surface w d1 = Some a
    ∧ surface w' d1 = Some a'
    ∧ ax_collections a' = ax_collections a ++ [p2]
    ∧ ax_title a' = title.
Proof.
  intros (p & c & a & Hp & Hc & Ha)%display_ok_inv Hhex.
  assert (Hap : axes d1 ≠ p) by (by eapply axes_ne_pixels).
  assert (Hfp : p ≠ fresh (dom (heap w))) by (by eapply fresh_ne_live).
  assert (Hfa : axes d1 ≠ fresh (dom (heap w))) by (by eapply fresh_ne_live).
  assert (Hinit := init_Ok g (Some (axes d1)) title w a Ha Hhex).
  cbn [target_axes default] in Hinit.
  eexists _, _, (fresh (dom (heap w))), a, (init_axes g title (fresh (dom (heap w))) a).
  split; [exact Hinit|].
  split; [done|]. split; [done|].
  split; [cbn; rewrite Hp; congruence|].
  split.
  { eapply display_ok_intro; [done| |]; cbn.
    - rewrite !lookup_insert_ne by done. exact Hc.
    - by rewrite lookup_insert_eq. }
  split.
  { eapply display_ok_intro; [done| |]; cbn.
    - rewrite lookup_insert_ne by done. by rewrite lookup_insert_eq.
    - by rewrite lookup_insert_eq. }
  split.
  { rewrite (pixel_collection_live _ _ _ _ Hp Hc).
    apply pixel_collection_live with (p := p); [done|]. cbn.
    by rewrite !lookup_insert_ne by done. }
  split; [by apply surface_live|].
  split; [apply surface_live; cbn; by rewrite lookup_insert_eq|].
  done.
Qed.

Lemma second_display_keeps_first_witness :
  ∃ d2' w' p2 a a',
    __init__ g2 (Some (axes d3)) "Second" w3 = (Ok d2', w')
    ∧ axes d2' = axes d3
    ∧ pixels d2' = Some p2
    ∧ pixels d2' ≠ pixels d3
    ∧ display_ok w' d3
    ∧ display_ok w' d2'
    ∧ pixel_collection w' d3 = pixel_collection w3 d3
    ∧ surface w3 d3 = Some a
    ∧ surface w' d3 = Some a'
    ∧ ax_collections a' = ax_collections a ++ [p2]
    ∧ ax_title a' = "Second".
Proof.
  apply (second_display_keeps_first g2 "Second" w3 d3).
  - split; vm_compute; eauto.
  - reflexivity.
Defined.

(** X17: displays with collections of their own do not disturb one
    another: whatever is called on one, the pixel collection of the
    other, its markers, colour map and value array, is as it was. *)
Theorem displays_independent PU w d1 d2' op :
  display_ok w d1 →
  display_ok w d2' →
  pixels d1 ≠ pixels d2' →
  pixel_collection (run PU d2' op w).2 d1 = pixel_collection w d1
  ∧ stored_array (run PU d2' op w).2 d1 = stored_array w d1.
Proof.
  intros (p1 & c1 & a1 & Hp1 & Hc1 & Ha1)%display_ok_inv
         (p2 & c2 & a2 & Hp2 & Hc2 & Ha2)%display_ok_inv Hne.
  assert (Hpp : p2 ≠ p1) by (intros ->; congruence).
  assert (Hap : axes d2' ≠ p1) by (intros E; rewrite E in Ha2; congruence).
  assert (Hfp : fresh (dom (heap w)) ≠ p1)
    by (intros E; rewrite <- E, fresh_not_live in Hc1; congruence).
  assert (Hkeep : heap (run PU d2' op w).2 !! p1 = Some (OColl c1)).
  { pose proof (run_effect PU w d2' p2 c2 a2 op Hp2 Hc2 Ha2) as Heff.
    destruct (run PU d2' op w) as [r w']. cbn [fst snd] in *.
    inversion Heff; subst; cbn; by rewrite ?lookup_insert_ne by done. }
  assert (E : pixel_collection (run PU d2' op w).2 d1 = pixel_collection w d1).
  { by rewrite (pixel_collection_live _ _ _ _ Hp1 Hkeep),
               (pixel_collection_live _ _ _ _ Hp1 Hc1). }
  split; [done|]. unfold stored_array. by rewrite E.
Qed.

Lemma displays_independent_witness :
  pixel_collection (run any_style d2 (call_draw_image (array1 [7; 8]%float)) w32).2 d3
    = pixel_collection w32 d3
  ∧ stored_array (run any_style d2 (call_draw_image (array1 [7; 8]%float)) w32).2 d3
    = stored_array w32 d3.
Proof.
  apply (displays_independent any_style w32 d3 d2 (call_draw_image (array1 [7; 8]%float))).
  - split; vm_compute; eauto.
  - split; vm_compute; eauto.
  - discriminate.
Defined.

(** The second display on the axes of the first: the image drawn on it is
    stored in its own collection. *)
Example two_displays :
  __init__ g2 (Some 1%positive) "Second" w3 = (Ok d2, w32)
  ∧ stored_array (run any_style d2 (call_draw_image (array1 [7; 8]%float)) w32).2 d2
    = Some (array1 [7; 8]%float)
  ∧ stored_array (run any_style d2 (call_draw_image (array1 [7; 8]%float)) w32).2 d3
    = Some (np_zeros_like (pix_x g3)).
Proof. repeat split; by vm_compute. Qed.
